(** * Flocking simulation: velocity kernel and its JavaScript driver

    A shallow embedding of

    - [src/shaders/boidVelocityFrag.glsl], the fragment shader that computes
      the next velocity of one bird from the previous generation, and
    - [src/js-funcs/starlings.js], the class that configures the simulation,
      fills the initial textures and feeds the pointer to the shader,

    followed by the properties of the two that the specification states.

    Numbers.  GLSL [float]s and JavaScript numbers are idealised as real
    numbers: the rounding of the arithmetic is not modelled.  Two
    conversions of [starlings.js] are: a store into the [Float32Array] of a
    texture rounds to the nearest single-precision number
    ([Float32.fround]), and [toFixed(2)] rounds to two decimals
    ([Starlings.toFixed2]).  Also modelled is where the arithmetic has no
    value at all: GLSL leaves a division by zero and [normalize] of a
    zero-length vector undefined (on IEEE hardware they produce an infinity
    or a NaN).  Such a result is [None]; whatever is computed from it is
    [None] as well, as a NaN would propagate. *)

From Stdlib Require Import QArith Reals Lra Lia ZArith Machin.
From Equations Require Import Equations.
From stdpp Require Import base option list.

Open Scope R_scope.

(** Comparisons of numbers as booleans, for the tests of the JavaScript. *)
#[global] Instance Req_decision (a b : R) : Decision (a = b) := Req_dec_T a b.
#[global] Instance Rlt_decision (a b : R) : Decision (a < b) := Rlt_dec a b.
#[global] Instance Rgt_decision (a b : R) : Decision (a > b) := Rgt_dec a b.

(** ** GLSL built-ins *)

Module GLSL.

Record vec3 : Type := Vec3 { x : R; y : R; z : R }.

Definition add (a b : vec3) : vec3 := Vec3 (x a + x b) (y a + y b) (z a + z b).
Definition sub (a b : vec3) : vec3 := Vec3 (x a - x b) (y a - y b) (z a - z b).
(** [v * k] for a vector [v] and a float [k]. *)
Definition scale (v : vec3) (k : R) : vec3 := Vec3 (x v * k) (y v * k) (z v * k).

(** The assignments [v.y = k] and [v.z = k]. *)
Definition set_y (v : vec3) (k : R) : vec3 := Vec3 (x v) k (z v).
Definition set_z (v : vec3) (k : R) : vec3 := Vec3 (x v) (y v) k.

Definition dot (a b : vec3) : R := x a * x b + y a * y b + z a * z b.
Definition length (v : vec3) : R := sqrt (dot v v).

(** [a / b]: undefined when the divisor is zero. *)
Definition fdiv (a b : R) : option R :=
  if Req_dec_T b 0 then None else Some (a / b).

(** [normalize(v)] is [v / length(v)]: undefined on a zero-length vector. *)
Definition normalize (v : vec3) : option vec3 :=
  if Req_dec_T (length v) 0 then None else Some (scale v (/ length v)).

End GLSL.

Abbreviation vec3 := GLSL.vec3.
Abbreviation Vec3 := GLSL.Vec3.

Declare Scope vec_scope.
Delimit Scope vec_scope with vec.
Bind Scope vec_scope with GLSL.vec3.
Infix "+" := GLSL.add : vec_scope.
Infix "-" := GLSL.sub : vec_scope.
Infix "*" := GLSL.scale : vec_scope.

(** ** [boidVelocityFrag.glsl] *)

Module BoidVelocity.

(** The uniforms of the shader.  [bounds] is the [#define] that
    [initComputeRenderer] sets from [options.bounds]. *)
Record uniforms : Type := Uniforms {
  clock : R;
  del_change : R;
  separation_distance : R;
  alignment_distance : R;
  cohesion_distance : R;
  freedom_distance : R;
  predator : vec3;
  bounds : R
}.

(** One texel of the two textures: [PositionTexture] and [VelocityTexture]
    are read at the same coordinates, so the pair of textures is a list of
    pairs, in the order of the shader's [y]/[x] loops. *)
Record bird : Type := Bird { position : vec3; velocity : vec3 }.

Definition PI : R := 3.14159.
Definition PI_2 : R := PI * 2.0.

Definition UPPER_bounds (u : uniforms) : R := bounds u.
Definition LOWER_bounds (u : uniforms) : R := - UPPER_bounds u.
Definition SPEED_LIMIT : R := 10.0.

(** Lines 25-28: the globals that [main] sets first.  The two thresholds
    are quotients by [zoneRadius], which no test precedes. *)
Definition zoneRadius (u : uniforms) : R :=
  separation_distance u + alignment_distance u + cohesion_distance u.
Definition separationThresh (u : uniforms) : option R :=
  GLSL.fdiv (separation_distance u) (zoneRadius u).
Definition alignmentThresh (u : uniforms) : option R :=
  GLSL.fdiv (separation_distance u + alignment_distance u) (zoneRadius u).
Definition zoneRadiusSquared (u : uniforms) : R := zoneRadius u * zoneRadius u.

Definition preyRadius : R := 50.0.
Definition preyRadiusSq : R := preyRadius * preyRadius.

(** Lines 50-51: the planar vector from the bird to the predator. *)
Definition predator_dir (u : uniforms) (selfPosition : vec3) : vec3 :=
  let dir := (predator u * UPPER_bounds u - selfPosition)%vec in
  GLSL.set_z dir 0.

(** Lines 50-62: the predator; it returns the velocity and the limit. *)
Definition predator_step (u : uniforms) (selfPosition velocity : vec3) (limit : R)
  : option (vec3 * R) :=
  let dir := predator_dir u selfPosition in
  let dist := GLSL.length dir in
  let distSquared := dist * dist in
  if Rlt_dec dist preyRadius then
    let f := (distSquared / preyRadiusSq) * del_change u * 160 in
    n ← GLSL.normalize dir;
    Some ((velocity + n * f)%vec, limit + 5.0)
  else Some (velocity, limit).

(** Lines 64-69: the pull towards the centre. *)
Definition center_step (u : uniforms) (selfPosition velocity : vec3) : option vec3 :=
  let central := Vec3 0 0 0 in
  let dir := (selfPosition - central)%vec in
  let dir := GLSL.set_y dir (GLSL.y dir * 2.5) in
  n ← GLSL.normalize dir;
  Some (velocity - n * del_change u * 6)%vec.

(** The three zone rules, lines 88-89, 91-95 and 97-100. *)
Definition separation_weight (u : uniforms) (percent sepT : R) : option R :=
  q ← GLSL.fdiv sepT percent;
  Some ((q - 1.0) * del_change u).

Definition separation_rule (u : uniforms) (dir velocity : vec3) (percent sepT : R)
  : option vec3 :=
  f ← separation_weight u percent sepT;
  n ← GLSL.normalize dir;
  Some (velocity - n * f)%vec.

Definition alignment_weight (u : uniforms) (adjustedPercent : R) : R :=
  (0.5 - cos (adjustedPercent * PI_2) * 0.5 + 0.5) * del_change u.

Definition alignment_rule (u : uniforms) (birdVelocity velocity : vec3)
  (percent sepT alignT : R) : option vec3 :=
  let threshold := alignT - sepT in
  adjustedPercent ← GLSL.fdiv (percent - sepT) threshold;
  let f := alignment_weight u adjustedPercent in
  n ← GLSL.normalize birdVelocity;
  Some (velocity + n * f)%vec.

Definition cohesion_weight (u : uniforms) (adjustedPercent : R) : R :=
  (0.5 - (cos (adjustedPercent * PI_2) * -0.5 + 0.5)) * del_change u.

Definition cohesion_rule (u : uniforms) (dir velocity : vec3) (percent alignT : R)
  : option vec3 :=
  let threshold := 1.0 - alignT in
  adjustedPercent ← GLSL.fdiv (percent - alignT) threshold;
  let f := cohesion_weight u adjustedPercent in
  n ← GLSL.normalize dir;
  Some (velocity + n * f)%vec.

(** Lines 76-101: the body of the double loop, for the texel [b]. *)
Definition neighbor (u : uniforms) (selfPosition velocity : vec3) (b : bird)
  : option vec3 :=
  let birdPosition := position b in
  let dir := (birdPosition - selfPosition)%vec in
  let dist := GLSL.length dir in
  if Rlt_dec dist 0.0001 then Some velocity else
  let distSquared := dist * dist in
  if Rgt_dec distSquared (zoneRadiusSquared u) then Some velocity else
  percent ← GLSL.fdiv distSquared (zoneRadiusSquared u);
  sepT ← separationThresh u;
  if Rlt_dec percent sepT then
    separation_rule u dir velocity percent sepT
  else
    alignT ← alignmentThresh u;
    if Rlt_dec percent alignT then
      alignment_rule u (BoidVelocity.velocity b) velocity percent sepT alignT
    else
      cohesion_rule u dir velocity percent alignT.

(** Lines 74-103: the loops visit every texel of the textures, the bird's
    own included. *)
Fixpoint scan (u : uniforms) (selfPosition : vec3) (g : list bird) (velocity : vec3)
  : option vec3 :=
  match g with
  | [] => Some velocity
  | b :: g' => v ← neighbor u selfPosition velocity b; scan u selfPosition g' v
  end.

(** Lines 46-103: the velocity before the clamp, and the limit. *)
Definition update (u : uniforms) (g : list bird) (self : bird) : option (vec3 * R) :=
  let selfPosition := position self in
  let selfVelocity := velocity self in
  let velocity := selfVelocity in
  let limit := SPEED_LIMIT in
  '(velocity, limit) ← predator_step u selfPosition velocity limit;
  velocity ← center_step u selfPosition velocity;
  velocity ← scan u selfPosition g velocity;
  Some (velocity, limit).

(** Lines 104-106. *)
Definition clamp (velocity : vec3) (limit : R) : option vec3 :=
  if Rgt_dec (GLSL.length velocity) limit then
    n ← GLSL.normalize velocity; Some (n * limit)%vec
  else Some velocity.

(** [main] for the fragment of the texel [self]: the [xyz] of
    [gl_FragColor]. *)
Definition main (u : uniforms) (g : list bird) (self : bird) : option vec3 :=
  '(velocity, limit) ← update u g self;
  clamp velocity limit.

End BoidVelocity.

(** ** Single-precision storage *)

(** The textures are [Float32Array]s: [data[i] = x] stores the
    single-precision number nearest to [x], ties to the even significand,
    as [Math.fround(x)] computes it.  A number with binary exponent [e]
    (that is [2^e <= |x| < 2^(e+1)]) is rounded to a multiple of
    [2^(e - 23)], and to a multiple of [2^(-149)] in the subnormal range.
    Magnitudes from [2^128] on, which are stored as an infinity, are left
    out: the fills store magnitudes of at most 100. *)
Module Float32.

Definition log2_floor (a : R) : Z := Int_part (ln (Rabs a) / ln 2).

Definition ulp_exponent (a : R) : Z := Z.max (log2_floor a - 23) (-149).

Definition round_half_even (t : R) : Z :=
  let f := Int_part t in
  let r := t - IZR f in
  if Rlt_dec r (1 / 2) then f
  else if Rgt_dec r (1 / 2) then (f + 1)%Z
  else if Z.even f then f else (f + 1)%Z.

Definition fround (a : R) : R :=
  if Req_dec_T a 0 then 0
  else IZR (round_half_even (a / powerRZ 2 (ulp_exponent a)))
       * powerRZ 2 (ulp_exponent a).

End Float32.

(** ** [starlings.js] *)

Module Starlings.

(** The values [options.birds] is tested for: [null] (the default) or a
    number. *)
Inductive jsval : Type :=
| JNull
| JNumber (n : R).

(** [this.options], without the two colours. *)
Record options : Type := Options {
  resolution : R;
  birds : jsval;
  separation : R;
  alignment : R;
  cohesion : R;
  freedom : R;
  bounds : R
}.

(** The object the caller passes: a key is present ([Some]) or absent. *)
Record user_options : Type := UserOptions {
  user_resolution : option R;
  user_birds : option jsval;
  user_separation : option R;
  user_alignment : option R;
  user_cohesion : option R;
  user_freedom : option R;
  user_bounds : option R
}.

Definition defaults : options :=
  Options 32 JNull 20.0 30.0 20.0 0.3 500.

(** [Object.assign(target, source)]: the keys of [source] win. *)
Definition Object_assign (target : options) (source : user_options) : options :=
  Options (default (resolution target) (user_resolution source))
          (default (birds target) (user_birds source))
          (default (separation target) (user_separation source))
          (default (alignment target) (user_alignment source))
          (default (cohesion target) (user_cohesion source))
          (default (freedom target) (user_freedom source))
          (default (bounds target) (user_bounds source)).

(** Lines 44-58 of the constructor. *)
Definition constructor (opts : user_options) : options :=
  Object_assign defaults opts.

Definition Math_floor (a : R) : R := IZR (Int_part a).
Definition Math_ceil (a : R) : R := - Math_floor (- a).
Definition Math_sqrt (a : R) : R := sqrt a.
Definition Math_abs (a : R) : R := Rabs a.

Definition Number_isInteger (v : jsval) : bool :=
  match v with
  | JNull => false
  | JNumber n => bool_decide (n = Math_floor n)
  end.

(** [v > 0], where [null] converts to [0]. *)
Definition gt_zero (v : jsval) : bool :=
  match v with
  | JNull => false
  | JNumber n => bool_decide (n > 0)
  end.

Definition to_number (v : jsval) : R :=
  match v with
  | JNull => 0
  | JNumber n => n
  end.

(** Lines 88-98 of [runSimulation]: the options with the resolution that
    is kept, and [this.birdsCount]. *)
Definition bird_count (o : options) : options * R :=
  let resolution0 := resolution o in
  if Number_isInteger (birds o) && gt_zero (birds o) then
    let birdsCount := to_number (birds o) in
    let resolution1 := Math_ceil (Math_sqrt birdsCount) in
    (Options resolution1 (birds o) (separation o) (alignment o) (cohesion o)
             (freedom o) (bounds o),
     birdsCount)
  else
    (o, resolution0 * resolution0).

(** The fields of [this] that [render] and the event handlers use. *)
Record sim : Type := Sim {
  sim_options : options;
  birdsCount : R;
  halfX : R;
  halfY : R;
  lastTime : R;
  mouseX : R;
  mouseY : R;
  uniformVelocity : BoidVelocity.uniforms
}.

(** [a.toFixed(2)], read back as the number that the shader's [#define]
    gets: [n / 100] for the integer [n] that brings it closest to [a], the
    larger [n] of two, after the sign of a negative [a] is set aside. *)
Definition toFixed2 (a : R) : R :=
  let n (x : R) := Math_floor (x * 100 + 1 / 2) in
  if Rlt_dec a 0 then - (n (- a) / 100) else n a / 100.

(** Lines 196-205 of [initComputeRenderer]: the uniforms of the velocity
    shader and its define [bounds = bounds.toFixed(2)]. *)
Definition initial_uniforms (o : options) : BoidVelocity.uniforms :=
  BoidVelocity.Uniforms 1.0 0.0 (separation o) (alignment o) (cohesion o)
                        (freedom o) (Vec3 0 0 0) (toFixed2 (bounds o)).

(** [runSimulation], for a container of the given size, started at [now]. *)
Definition runSimulation (o : options) (width height now : R) : sim :=
  let '(o', count) := bird_count o in
  Sim o' count (width / 2) (height / 2) now 0 0 (initial_uniforms o').

Definition set_mouse (s : sim) (mx my : R) : sim :=
  Sim (sim_options s) (birdsCount s) (halfX s) (halfY s) (lastTime s) mx my
      (uniformVelocity s).

Definition onDocumentMouseMove (clientX clientY : R) (s : sim) : sim :=
  set_mouse s (clientX - halfX s) (clientY - halfY s).

(** [touches] holds the [(pageX, pageY)] of [event.touches]. *)
Definition onDocumentTouchStart (touches : list (R * R)) (s : sim) : sim :=
  match touches with
  | [(pageX, pageY)] => set_mouse s (pageX - halfX s) (pageY - halfY s)
  | _ => s
  end.

Definition onDocumentTouchMove (touches : list (R * R)) (s : sim) : sim :=
  match touches with
  | [(pageX, pageY)] => set_mouse s (pageX - halfX s) (pageY - halfY s)
  | _ => s
  end.

Definition set_time (u : BoidVelocity.uniforms) (now delta : R) : BoidVelocity.uniforms :=
  BoidVelocity.Uniforms now delta
    (BoidVelocity.separation_distance u) (BoidVelocity.alignment_distance u)
    (BoidVelocity.cohesion_distance u) (BoidVelocity.freedom_distance u)
    (BoidVelocity.predator u) (BoidVelocity.bounds u).

Definition set_predator (u : BoidVelocity.uniforms) (p : vec3) : BoidVelocity.uniforms :=
  BoidVelocity.Uniforms (BoidVelocity.clock u) (BoidVelocity.del_change u)
    (BoidVelocity.separation_distance u) (BoidVelocity.alignment_distance u)
    (BoidVelocity.cohesion_distance u) (BoidVelocity.freedom_distance u)
    p (BoidVelocity.bounds u).

(** Lines 272-297 of [render], called at [now]: the state with which
    [gpuAllocation.compute()] runs.  The quotients by [halfX] and [halfY]
    are reached only under the test, which makes both positive. *)
Definition frame_delta (now : R) (s : sim) : R :=
  let delta := (now - lastTime s) / 1000 in
  if Rgt_dec delta 1 then 1 else delta.

Definition render (now : R) (s : sim) : sim :=
  let delta := frame_delta now s in
  let u := set_time (uniformVelocity s) now delta in
  if bool_decide (Math_abs (mouseX s) < halfX s * 10)
     && bool_decide (Math_abs (mouseY s) < halfY s * 10) then
    let u := set_predator u (Vec3 (0.5 * mouseX s / halfX s)
                                  (-0.5 * mouseY s / halfY s) 0) in
    Sim (sim_options s) (birdsCount s) (halfX s) (halfY s) now 10000 10000 u
  else
    Sim (sim_options s) (birdsCount s) (halfX s) (halfY s) now (mouseX s) (mouseY s) u.

(** [animate]: one call of [render] per frame, at the times [nows], with
    no event in between. *)
Definition frames (nows : list R) (s : sim) : sim :=
  fold_left (fun s now => render now s) nows s.

(** The velocity pass of [gpuAllocation.compute()] for the texel [self]. *)
Definition compute_velocity (s : sim) (g : list BoidVelocity.bird)
  (self : BoidVelocity.bird) : option vec3 :=
  BoidVelocity.main (uniformVelocity s) g self.

(** The loop that [fillPositionTexture] and [fillVelocityTexture] share:
    [for (let i = 0; i < data.length; i += 4)], with three calls of
    [Math.random()] in each round.  [random n] is what the [n]-th call of
    [Math.random()] returns and [k] counts the calls made so far;
    [component] is the expression that is applied to each of them.  [data]
    is the [Float32Array] of the texture: a write rounds to single
    precision, and a write past its end is dropped. *)
Definition store (i : nat) (a : R) (data : list R) : list R :=
  <[i := Float32.fround a]> data.

Equations? fill_from (component : R -> R) (random : nat -> R) (i k : nat)
  (data : list R) : list R * nat by wf (length data - i)%nat lt :=
  fill_from component random i k data with lt_dec i (length data) => {
    | left _ =>
        let x := component (random k) in
        let y := component (random (k + 1)%nat) in
        let z := component (random (k + 2)%nat) in
        fill_from component random (i + 4)%nat (k + 3)%nat
          (store (i + 3) 1 (store (i + 2) z (store (i + 1) y (store i x data))));
    | right _ => (data, k) }.
Proof. unfold store. rewrite !length_insert. lia. Qed.

(** [const x = Math.random() * 100]. *)
Definition fillPositionTexture (random : nat -> R) (k : nat) (data : list R)
  : list R * nat :=
  fill_from (fun r => r * 100) random 0 k data.

(** [const x = (Math.random() - 0.5) * 10]. *)
Definition fillVelocityTexture (random : nat -> R) (k : nat) (data : list R)
  : list R * nat :=
  fill_from (fun r => (r - 0.5) * 10) random 0 k data.

(** Lines 181-185 of [initComputeRenderer]: [createTexture] makes an array
    of four zeros per texel, and the positions are filled before the
    velocities, from the same [Math.random()]. *)
Definition createTexture (resolution : nat) : list R :=
  replicate (resolution * resolution * 4) 0.

Definition fill_textures (random : nat -> R) (resolution : nat)
  : list R * list R * nat :=
  let dtPosition := createTexture resolution in
  let dtVelocity := createTexture resolution in
  let '(dtPosition, k) := fillPositionTexture random 0 dtPosition in
  let '(dtVelocity, k) := fillVelocityTexture random k dtVelocity in
  (dtPosition, dtVelocity, k).

(** The [xyz] of the texel [t] of a texture, as the shader reads it. *)
Definition texel_xyz (data : list R) (t : nat) : option vec3 :=
  x ← data !! (4 * t)%nat;
  y ← data !! (4 * t + 1)%nat;
  z ← data !! (4 * t + 2)%nat;
  Some (Vec3 x y z).

(** Lines 346-355 of [onWindowResize], for a container of the given size. *)
Definition onWindowResize (width height : R) (s : sim) : sim :=
  Sim (sim_options s) (birdsCount s) (width / 2) (height / 2) (lastTime s)
      (mouseX s) (mouseY s) (uniformVelocity s).

(** What happens to a running simulation: the events of the listeners that
    [initScene] registers, and the frames of [animate]. *)
Inductive event : Type :=
| MouseMove (clientX clientY : R)
| TouchStart (touches : list (R * R))
| TouchMove (touches : list (R * R))
| WindowResize (width height : R)
| AnimationFrame (now : R).

Definition handle (e : event) (s : sim) : sim :=
  match e with
  | MouseMove clientX clientY => onDocumentMouseMove clientX clientY s
  | TouchStart touches => onDocumentTouchStart touches s
  | TouchMove touches => onDocumentTouchMove touches s
  | WindowResize width height => onWindowResize width height s
  | AnimationFrame now => render now s
  end.

Definition run (events : list event) (s : sim) : sim :=
  fold_left (fun s e => handle e s) events s.

(** What the events keep: the predator uniform stays in the box, the other
    uniforms that the flock depends on stay what they were. *)
Definition kept (u0 : BoidVelocity.uniforms) (s : sim) : Prop :=
  let u := uniformVelocity s in
  Rabs (GLSL.x (BoidVelocity.predator u)) < 5 /\
  Rabs (GLSL.y (BoidVelocity.predator u)) < 5 /\
  GLSL.z (BoidVelocity.predator u) = 0 /\
  BoidVelocity.separation_distance u = BoidVelocity.separation_distance u0 /\
  BoidVelocity.alignment_distance u = BoidVelocity.alignment_distance u0 /\
  BoidVelocity.cohesion_distance u = BoidVelocity.cohesion_distance u0 /\
  BoidVelocity.bounds u = BoidVelocity.bounds u0.


End Starlings.

(** ** Inputs *)

(** The two birds of the scenario in the specification, with the distances
    and the time step it gives; the predator is left open. *)
Module Scenario.

Definition A : BoidVelocity.bird := BoidVelocity.Bird (Vec3 0 0 0) (Vec3 0 0 0).
Definition B : BoidVelocity.bird := BoidVelocity.Bird (Vec3 10 0 0) (Vec3 0 0 0).

Definition uniforms (predator : vec3) : BoidVelocity.uniforms :=
  BoidVelocity.Uniforms 0 0.016 20 30 20 0.3 predator 500.

(** A predator at [(500, 0, 0)], out of reach of both birds. *)
Definition far : vec3 := Vec3 1 0 0.

(** All three zone distances zero. *)
Definition degenerate : BoidVelocity.uniforms :=
  BoidVelocity.Uniforms 0 0.016 0 0 0 0.3 far 500.

(** A window of 1000 by 800 pixels, the defaults, one mouse move to
    [(600, 400)] and then two frames, 16 ms apart. *)
Definition started : Starlings.sim :=
  Starlings.runSimulation (Starlings.constructor
    (Starlings.UserOptions None None None None None None None)) 1000 800 0.
Definition moved : Starlings.sim := Starlings.onDocumentMouseMove 600 400 started.
Definition frame1 : Starlings.sim := Starlings.render 16 moved.
Definition frame2 : Starlings.sim := Starlings.render 32 frame1.

(** The caller asks for a thousand birds and nothing else. *)
Definition thousand_birds : Starlings.user_options :=
  Starlings.UserOptions None (Some (Starlings.JNumber 1000)) None None None None None.

(** A bird ten units from the point the pointer designates. *)
Definition near_pointer : BoidVelocity.bird :=
  BoidVelocity.Bird (Vec3 40 0 7) (Vec3 0 0 0).

End Scenario.

(** Birds that fly along x, for the properties of the neighbour scan. *)
Module Flock.

Definition flying (x y z : R) : BoidVelocity.bird :=
  BoidVelocity.Bird (Vec3 x y z) (Vec3 1 0 0).

(** A bird at rest, 40 units from the origin: in the alignment zone of a
    bird at the origin, with the distances of the scenario. *)
Definition resting : BoidVelocity.bird :=
  BoidVelocity.Bird (Vec3 40 0 0) (Vec3 0 0 0).

(** A time step of zero. *)
Definition paused : BoidVelocity.uniforms :=
  BoidVelocity.Uniforms 0 0 20 30 20 0.3 Scenario.far 500.

(** A bird at ten times the speed limit, ten units from the origin, where
    the predator uniform points before any pointer event. *)
Definition fast : BoidVelocity.bird :=
  BoidVelocity.Bird (Vec3 10 0 0) (Vec3 100 0 0).

(** A bird at the origin. *)
Definition central : BoidVelocity.bird := flying 0 0 0.

End Flock.

(** ** [BirdGeometry.js] *)

(** The constructor of [BirdGeometry], for a whole number of birds and a
    whole resolution.  The attributes are typed arrays of floats, here lists
    of rationals; a write past the end of one is dropped. *)
Module BirdGeometry.

Definition of_nat (n : nat) : Q := inject_Z (Z.of_nat n).

(** [options.resolution ? options.resolution : 32]: zero is falsy. *)
Definition res_of (resolution : nat) : nat :=
  if (resolution =? 0)%nat then 32%nat else resolution.

(** [vertex_append(...args)]: [args.forEach(a => vertices.array[v++] = a)],
    on the array and the counter [v]. *)
Definition vertex_append (args : list Q) (st : list Q * nat) : list Q * nat :=
  fold_left (fun st a => (<[st.2 := a]> st.1, S st.2)) args st.

Definition body : list Q := [0; 0; -6; 0; 1; -15; 0; 0; 8]%Q.
Definition left_wing : list Q := [0; 0; -4; -6; 0; 0; 0; 0; 4]%Q.
Definition right_wing : list Q := [0; 0; 4; 6; 0; 0; 0; 0; -4]%Q.

(** The 27 coordinates of one bird. *)
Definition pattern : list Q := body ++ left_wing ++ right_wing.

(** One round of the loop [for (let f = 0; f < birds; f++)]. *)
Definition add_bird (st : list Q * nat) : list Q * nat :=
  vertex_append right_wing (vertex_append left_wing (vertex_append body st)).

Definition fill_vertices (birds : nat) (vertices : list Q) : list Q * nat :=
  Nat.iter birds add_bird (vertices, 0%nat).

Record attributes : Type := Attributes {
  birdColors : list Q;
  references : list Q;
  birdVertex : list Q
}.

(** One round of the loop [for (let i = 0; i < triangles * 3; i++)]; the
    colour [new THREE.Color(0x000000)] has [r = g = b = 0]. *)
Definition assign (res i : nat) (a : attributes) : attributes :=
  let idx := (i / 3)%nat in
  let x := (of_nat (idx mod res) / of_nat res)%Q in
  let y := (of_nat (idx / res) / of_nat res)%Q in
  Attributes
    (<[(i * 3 + 2)%nat := 0%Q]> (<[(i * 3 + 1)%nat := 0%Q]> (<[(i * 3)%nat := 0%Q]>
       (birdColors a))))
    (<[(i * 2 + 1)%nat := y]> (<[(i * 2)%nat := x]> (references a)))
    (<[i := of_nat (i mod 9)]> (birdVertex a)).

Definition fill_attributes (res n : nat) (a : attributes) : attributes :=
  fold_left (fun a i => assign res i a) (seq 0 n) a.

(** [this.scale(k, k, k)] multiplies every coordinate by [k]. *)
Definition scale (k : Q) (vertices : list Q) : list Q := map (Qmult k) vertices.

Record geometry : Type := Geometry {
  position : list Q;
  birdColor : list Q;
  reference : list Q;
  birdVertex_attribute : list Q
}.

Definition constructor (birdsCount resolution : nat) : geometry :=
  let birds := birdsCount in
  let res := res_of resolution in
  let triangles := (birds * 3)%nat in
  let points := (triangles * 3)%nat in
  let vertices := replicate (points * 3) 0%Q in
  let a := Attributes (replicate (points * 3) 0%Q) (replicate (points * 2) 0%Q)
                      (replicate points 0%Q) in
  let vertices := (fill_vertices birds vertices).1 in
  let a := fill_attributes res (triangles * 3) a in
  Geometry (scale 0.35 vertices) (birdColors a) (references a) (birdVertex a).

End BirdGeometry.

(** ** The listeners of [initScene] and [stop] *)

(** The listener lists of the wrapper element and of [window].  A function
    object is known by the method and by the call of [bind] that made it:
    [m.bind(this)] returns a new function at each call, and
    [removeEventListener] removes the listener whose function is the very
    object that was added. *)
Module Listeners.

Inductive method : Type :=
| OnDocumentMouseMove
| OnDocumentTouchStart
| OnDocumentTouchMove
| OnWindowResize.

Inductive event_type : Type := Mousemove | Touchstart | Touchmove | Resize.

Record fn : Type := Fn { fn_method : method; fn_bind : nat }.

Record listener : Type := Listener { l_type : event_type; l_fn : fn }.

#[global] Instance method_eq_dec : EqDecision method.
Proof. solve_decision. Defined.
#[global] Instance event_type_eq_dec : EqDecision event_type.
Proof. solve_decision. Defined.
#[global] Instance fn_eq_dec : EqDecision fn.
Proof. solve_decision. Defined.
#[global] Instance listener_eq_dec : EqDecision listener.
Proof. solve_decision. Defined.

(** [wrapper] is [None] until [initScene] creates the element; [binds]
    counts the calls of [bind]; [rafId] is [this._rafId]. *)
Record dom : Type := Dom {
  wrapper : option (list listener);
  window : list listener;
  binds : nat;
  rafId : option nat
}.

(** [target.addEventListener(type, f)]: a listener that is there already is
    not added again. *)
Definition addEventListener (ty : event_type) (f : fn) (ls : list listener)
  : list listener :=
  if decide (Listener ty f ∈ ls) then ls else ls ++ [Listener ty f].

Definition removeEventListener (ty : event_type) (f : fn) (ls : list listener)
  : list listener :=
  filter (fun l => l <> Listener ty f) ls.

(** Lines 130-132 and 166-169 of [initScene]: a new wrapper element and the
    four listeners, each bound at registration. *)
Definition initScene (d : dom) : dom :=
  let n := binds d in
  let w := addEventListener Mousemove (Fn OnDocumentMouseMove n) [] in
  let w := addEventListener Touchstart (Fn OnDocumentTouchStart (n + 1)) w in
  let w := addEventListener Touchmove (Fn OnDocumentTouchMove (n + 2)) w in
  Dom (Some w) (addEventListener Resize (Fn OnWindowResize (n + 3)) (window d))
      (n + 4) (rafId d).

(** [animate] keeps the id of the frame it requests. *)
Definition animate (id : nat) (d : dom) : dom :=
  Dom (wrapper d) (window d) (binds d) (Some id).

(** Lines 394-407 of [stop]: each handler is bound again for the removal. *)
Definition stop (d : dom) : dom :=
  let n := binds d in
  match wrapper d with
  | Some w =>
      let w := removeEventListener Mousemove (Fn OnDocumentMouseMove n) w in
      let w := removeEventListener Touchstart (Fn OnDocumentTouchStart (n + 1)) w in
      let w := removeEventListener Touchmove (Fn OnDocumentTouchMove (n + 2)) w in
      Dom (Some w) (removeEventListener Resize (Fn OnWindowResize (n + 3)) (window d))
          (n + 4) None
  | None =>
      Dom None (removeEventListener Resize (Fn OnWindowResize n) (window d))
          (n + 1) None
  end.

(** The function objects of the listeners were all made by earlier calls of
    [bind]. *)
Definition bound_before (d : dom) : Prop :=
  Forall (fun l => (fn_bind (l_fn l) < binds d)%nat) (default [] (wrapper d) ++ window d).

End Listeners.

(** * Properties *)

(** ** Rounding *)

Section Rounding.

Import Float32.

Lemma Int_part_bounds (t : R) : IZR (Int_part t) <= t < IZR (Int_part t) + 1.
Proof. pose proof (base_Int_part t). lra. Qed.

(** Rounding to an integer does not cross an integer. *)
Lemma round_half_even_le (t : R) (m : Z) :
  t <= IZR m -> (round_half_even t <= m)%Z.
Proof.
  intros Ht. pose proof (Int_part_bounds t) as [Hlo Hhi].
  unfold round_half_even. cbv zeta.
  destruct (Req_dec t (IZR m)) as [->|Hne].
  - assert (Hi : Int_part (IZR m) = m) by (symmetry; apply Int_part_spec; lra).
    rewrite Hi. destruct (Rlt_dec _ _); [lia|]. exfalso. lra.
  - assert (Hlt : (Int_part t < m)%Z) by (apply lt_IZR; lra).
    destruct (Rlt_dec _ _); [lia|]. destruct (Rgt_dec _ _); [lia|].
    destruct (Z.even _); lia.
Qed.

Lemma round_half_even_ge (t : R) (m : Z) :
  IZR m <= t -> (m <= round_half_even t)%Z.
Proof.
  intros Ht. pose proof (Int_part_bounds t) as [Hlo Hhi].
  assert (Hle : (m <= Int_part t)%Z).
  { apply Z.lt_succ_r. apply lt_IZR. rewrite succ_IZR. lra. }
  unfold round_half_even. cbv zeta.
  destruct (Rlt_dec _ _); [lia|]. destruct (Rgt_dec _ _); [lia|].
  destruct (Z.even _); lia.
Qed.


Lemma ln2_pos : 0 < ln 2.
Proof. rewrite <- ln_1. apply ln_increasing; lra. Qed.


Lemma log2_floor_below (a : R) (e : nat) :
  a <> 0 -> Rabs a < 2 ^ (S e) -> (log2_floor a <= Z.of_nat e)%Z.
Proof.
  intros Ha Hhi. unfold log2_floor.
  pose proof ln2_pos as H2.
  assert (Hpos : 0 < Rabs a) by (apply Rabs_pos_lt, Ha).
  assert (Hln_hi : ln (Rabs a) < INR (S e) * ln 2).
  { rewrite <- ln_pow by lra. apply ln_increasing; lra. }
  rewrite S_INR in Hln_hi.
  pose proof (Int_part_bounds (ln (Rabs a) / ln 2)) as [Hlo _].
  assert (Hq : ln (Rabs a) = (ln (Rabs a) / ln 2) * ln 2) by (field; lra).
  set (q := ln (Rabs a) / ln 2) in *.
  apply Z.lt_succ_r. apply lt_IZR. rewrite succ_IZR, <- INR_IZR_INZ. nra.
Qed.

Lemma powerRZ_nonpos (e : Z) :
  (e <= 0)%Z -> powerRZ 2 e = / 2 ^ Z.to_nat (- e).
Proof.
  intros He. destruct e as [|p|p]; [simpl; lra|lia|reflexivity].
Qed.

(** Below 128 the single-precision numbers are spaced by at most [2^(-17)],
    so every integer is one of them and rounding does not cross it. *)
Lemma fround_le (a : R) (m : Z) :
  Rabs a < 128 -> a <= IZR m -> fround a <= IZR m.
Proof.
  intros Ha Hm. unfold fround.
  destruct (Req_dec_T a 0) as [->|Hne]; [exact Hm|].
  assert (He : (ulp_exponent a <= 0)%Z).
  { unfold ulp_exponent. pose proof (log2_floor_below a 6 Hne ltac:(simpl; lra)). lia. }
  rewrite (powerRZ_nonpos _ He).
  set (k := Z.to_nat (- ulp_exponent a)).
  assert (Hk : 0 < 2 ^ k) by (apply pow_lt; lra).
  assert (Hle : (round_half_even (a / / 2 ^ k) <= m * 2 ^ Z.of_nat k)%Z).
  { apply round_half_even_le. rewrite mult_IZR, <- pow_IZR.
    unfold Rdiv. rewrite Rinv_inv. nra. }
  apply IZR_le in Hle. rewrite mult_IZR, <- pow_IZR in Hle.
  apply Rmult_le_reg_r with (2 ^ k); [exact Hk|].
  rewrite Rmult_assoc, Rinv_l by lra. lra.
Qed.

Lemma fround_ge (a : R) (m : Z) :
  Rabs a < 128 -> IZR m <= a -> IZR m <= fround a.
Proof.
  intros Ha Hm. unfold fround.
  destruct (Req_dec_T a 0) as [->|Hne]; [exact Hm|].
  assert (He : (ulp_exponent a <= 0)%Z).
  { unfold ulp_exponent. pose proof (log2_floor_below a 6 Hne ltac:(simpl; lra)). lia. }
  rewrite (powerRZ_nonpos _ He).
  set (k := Z.to_nat (- ulp_exponent a)).
  assert (Hk : 0 < 2 ^ k) by (apply pow_lt; lra).
  assert (Hle : (m * 2 ^ Z.of_nat k <= round_half_even (a / / 2 ^ k))%Z).
  { apply round_half_even_ge. rewrite mult_IZR, <- pow_IZR.
    unfold Rdiv. rewrite Rinv_inv. nra. }
  apply IZR_le in Hle. rewrite mult_IZR, <- pow_IZR in Hle.
  apply Rmult_le_reg_r with (2 ^ k); [exact Hk|].
  rewrite Rmult_assoc, Rinv_l by lra. lra.
Qed.

Lemma fround_integer (m : Z) : Rabs (IZR m) < 128 -> fround (IZR m) = IZR m.
Proof.
  intros H. apply Rle_antisym; [apply fround_le|apply fround_ge]; (exact H || lra).
Qed.

Lemma fround_range (a : R) (lo hi : Z) :
  Rabs a < 128 -> IZR lo <= a <= IZR hi -> IZR lo <= fround a <= IZR hi.
Proof.
  intros Ha [Hlo Hhi]. split; [apply fround_ge|apply fround_le]; assumption.
Qed.

Lemma fround_1 : fround 1 = 1.
Proof. apply (fround_integer 1). rewrite Rabs_pos_eq; lra. Qed.












(** [toFixed(2)] keeps a number of hundredths and moves any number by at
    most half a hundredth. *)
Lemma toFixed2_hundredths (m : Z) :
  Starlings.toFixed2 (IZR m / 100) = IZR m / 100.
Proof.
  unfold Starlings.toFixed2, Starlings.Math_floor. cbv zeta.
  destruct (Rlt_dec (IZR m / 100) 0) as [Hneg|Hpos].
  - assert (Hi : Int_part (- (IZR m / 100) * 100 + 1 / 2) = (- m)%Z).
    { symmetry. apply Int_part_spec. rewrite opp_IZR. lra. }
    rewrite Hi, opp_IZR. lra.
  - assert (Hi : Int_part (IZR m / 100 * 100 + 1 / 2) = m).
    { symmetry. apply Int_part_spec. lra. }
    rewrite Hi. reflexivity.
Qed.

Lemma toFixed2_500 : Starlings.toFixed2 500 = 500.
Proof.
  replace 500 with (IZR 50000 / 100) by lra. apply toFixed2_hundredths.
Qed.

Lemma toFixed2_near (a : R) : Rabs (Starlings.toFixed2 a - a) <= 1 / 200.
Proof.
  unfold Starlings.toFixed2, Starlings.Math_floor. cbv zeta.
  destruct (Rlt_dec a 0) as [Hneg|Hpos].
  - pose proof (Int_part_bounds (- a * 100 + 1 / 2)) as [Hlo Hhi].
    apply Rabs_le. lra.
  - pose proof (Int_part_bounds (a * 100 + 1 / 2)) as [Hlo Hhi].
    apply Rabs_le. lra.
Qed.

(** [0.125.toFixed(2)] gives 0.13, not 0.125. *)
Lemma toFixed2_eighth : Starlings.toFixed2 0.125 = 0.13.
Proof.
  unfold Starlings.toFixed2, Starlings.Math_floor. cbv zeta.
  destruct (Rlt_dec 0.125 0) as [Hneg|_]; [exfalso; lra|].
  assert (Hi : Int_part (0.125 * 100 + 1 / 2) = 13%Z).
  { symmetry. apply Int_part_spec. lra. }
  rewrite Hi. lra.
Qed.

End Rounding.

(** ** Vectors *)

Section Vectors.

Implicit Types v w n : vec3.
Implicit Types k : R.

Lemma vec3_eq v w :
  GLSL.x v = GLSL.x w -> GLSL.y v = GLSL.y w -> GLSL.z v = GLSL.z w -> v = w.
Proof. destruct v, w; simpl; intros; subst; reflexivity. Qed.

Lemma dot_self_nonneg v : 0 <= GLSL.dot v v.
Proof. unfold GLSL.dot. nra. Qed.

Lemma length_nonneg v : 0 <= GLSL.length v.
Proof. apply sqrt_pos. Qed.

Lemma length_sqr v : GLSL.length v * GLSL.length v = GLSL.dot v v.
Proof. apply sqrt_sqrt, dot_self_nonneg. Qed.

Lemma length_zero_iff v : GLSL.length v = 0 <-> v = Vec3 0 0 0.
Proof.
  split.
  - intros H. apply sqrt_eq_0 in H; [|apply dot_self_nonneg].
    unfold GLSL.dot in H. apply vec3_eq; simpl; nra.
  - intros ->. unfold GLSL.length, GLSL.dot; simpl.
    replace (0 * 0 + 0 * 0 + 0 * 0) with 0 by ring. apply sqrt_0.
Qed.

Lemma length_scale v k : GLSL.length (v * k) = GLSL.length v * Rabs k.
Proof.
  unfold GLSL.length.
  replace (GLSL.dot (v * k) (v * k)) with (GLSL.dot v v * (k * k))
    by (unfold GLSL.dot, GLSL.scale; simpl; ring).
  rewrite sqrt_mult_alt by apply dot_self_nonneg.
  f_equal. fold (Rsqr k). apply sqrt_Rsqr_abs.
Qed.

(** The length of a vector along the x axis. *)
Lemma length_x_axis k : GLSL.length (Vec3 k 0 0) = Rabs k.
Proof.
  unfold GLSL.length, GLSL.dot; simpl.
  replace (k * k + 0 * 0 + 0 * 0) with (Rsqr k) by (unfold Rsqr; ring).
  apply sqrt_Rsqr_abs.
Qed.

Lemma length_z_axis k : GLSL.length (Vec3 0 0 k) = Rabs k.
Proof.
  unfold GLSL.length, GLSL.dot; simpl.
  replace (0 * 0 + 0 * 0 + k * k) with (Rsqr k) by (unfold Rsqr; ring).
  apply sqrt_Rsqr_abs.
Qed.

Lemma fdiv_Some a b : b <> 0 -> GLSL.fdiv a b = Some (a / b).
Proof. intros H. unfold GLSL.fdiv. destruct (Req_dec_T b 0); [contradiction|reflexivity]. Qed.

Lemma fdiv_zero a : GLSL.fdiv a 0 = None.
Proof. unfold GLSL.fdiv. destruct (Req_dec_T 0 0); [reflexivity|contradiction]. Qed.

Lemma fdiv_inv a b q : GLSL.fdiv a b = Some q -> b <> 0 /\ q = a / b.
Proof.
  unfold GLSL.fdiv. destruct (Req_dec_T b 0); [discriminate|].
  intros [= <-]. split; [assumption|reflexivity].
Qed.

Lemma normalize_Some v :
  GLSL.length v <> 0 -> GLSL.normalize v = Some (v * / GLSL.length v)%vec.
Proof.
  intros H. unfold GLSL.normalize.
  destruct (Req_dec_T (GLSL.length v) 0); [contradiction|reflexivity].
Qed.

Lemma normalize_zero : GLSL.normalize (Vec3 0 0 0) = None.
Proof.
  unfold GLSL.normalize.
  destruct (Req_dec_T (GLSL.length (Vec3 0 0 0)) 0) as [_|H]; [reflexivity|].
  exfalso. apply H. apply length_zero_iff. reflexivity.
Qed.

Lemma normalize_None_iff v : GLSL.normalize v = None <-> v = Vec3 0 0 0.
Proof.
  split.
  - unfold GLSL.normalize.
    destruct (Req_dec_T (GLSL.length v) 0) as [H|_]; [|discriminate].
    intros _. apply length_zero_iff, H.
  - intros ->. apply normalize_zero.
Qed.

Lemma normalize_inv v n :
  GLSL.normalize v = Some n ->
  GLSL.length v > 0 /\ n = (v * / GLSL.length v)%vec.
Proof.
  unfold GLSL.normalize.
  destruct (Req_dec_T (GLSL.length v) 0) as [|H]; [discriminate|].
  intros [= <-]. split; [|reflexivity].
  pose proof (length_nonneg v). lra.
Qed.

(** A normalized vector has length one. *)
Lemma normalize_unit v n : GLSL.normalize v = Some n -> GLSL.length n = 1.
Proof.
  intros H. apply normalize_inv in H as [Hpos ->].
  rewrite length_scale, Rabs_pos_eq.
  - field. lra.
  - left. apply Rinv_0_lt_compat. lra.
Qed.

End Vectors.

(** ** The clamp and the speed limit *)

Section SpeedLimit.

Import BoidVelocity.

Lemma clamp_spec (velocity w : vec3) (limit : R) :
  0 < limit ->
  clamp velocity limit = Some w ->
  GLSL.length w <= limit /\
  (GLSL.length velocity > limit -> GLSL.length w = limit) /\
  (GLSL.length velocity <= limit -> w = velocity).
Proof.
  intros Hlim. unfold clamp.
  destruct (Rgt_dec (GLSL.length velocity) limit) as [Hgt|Hle].
  - destruct (GLSL.normalize velocity) as [n|] eqn:Hn; simpl; [|discriminate].
    intros [= <-]. apply normalize_unit in Hn.
    assert (Hw : GLSL.length (n * limit) = limit).
    { rewrite length_scale, Hn, Rabs_pos_eq; lra. }
    rewrite Hw. repeat split; intros; lra.
  - intros [= <-]. repeat split; intros; lra.
Qed.

(** The clamp has a value whenever the limit is positive. *)
Lemma clamp_defined (velocity : vec3) (limit : R) :
  0 < limit -> is_Some (clamp velocity limit).
Proof.
  intros Hlim. unfold clamp.
  destruct (Rgt_dec (GLSL.length velocity) limit) as [Hgt|Hle]; [|eauto].
  rewrite normalize_Some by lra. simpl. eauto.
Qed.

Lemma predator_step_limit u selfPosition velocity limit v' limit' :
  predator_step u selfPosition velocity limit = Some (v', limit') ->
  limit' =
    if Rlt_dec (GLSL.length (predator_dir u selfPosition)) 50 then limit + 5 else limit.
Proof.
  unfold predator_step, preyRadius.
  replace 50.0 with 50 by lra.
  destruct (Rlt_dec _ 50).
  - destruct (GLSL.normalize _); simpl; [|discriminate].
    intros [= _ <-]. lra.
  - intros [= _ <-]. reflexivity.
Qed.

Lemma update_limit u g self w limit :
  update u g self = Some (w, limit) ->
  limit =
    if Rlt_dec (GLSL.length (predator_dir u (position self))) 50 then 15 else 10.
Proof.
  unfold update.
  destruct (predator_step u (position self) (velocity self) SPEED_LIMIT)
    as [[v1 l1]|] eqn:Hp; simpl; [|discriminate].
  apply predator_step_limit in Hp.
  destruct (center_step u (position self) v1) as [v2|]; simpl; [|discriminate].
  destruct (scan u (position self) g v2) as [v3|]; simpl; [|discriminate].
  intros [= _ <-]. rewrite Hp. unfold SPEED_LIMIT.
  destruct (Rlt_dec _ 50); lra.
Qed.

Lemma main_inv u g self v :
  main u g self = Some v ->
  exists w limit, update u g self = Some (w, limit) /\ clamp w limit = Some v.
Proof.
  unfold main.
  destruct (update u g self) as [[w limit]|]; simpl; [|discriminate].
  intros H. exists w, limit. split; [reflexivity|assumption].
Qed.

End SpeedLimit.

(** ** The steps of the kernel *)

Section Steps.

Import BoidVelocity.

Implicit Types u : uniforms.
Implicit Types g : list bird.

Lemma predator_step_near u selfPosition velocity limit :
  GLSL.length (predator_dir u selfPosition) < 50 ->
  predator_step u selfPosition velocity limit =
    (n ← GLSL.normalize (predator_dir u selfPosition);
     let d := GLSL.length (predator_dir u selfPosition) in
     Some ((velocity + n * (d * d / (50 * 50) * del_change u * 160))%vec, limit + 5)).
Proof.
  intros Hd. unfold predator_step, preyRadiusSq, preyRadius.
  destruct (Rlt_dec _ 50.0) as [_|H]; [|exfalso; lra].
  destruct (GLSL.normalize _); simpl; [|reflexivity].
  do 2 f_equal; [|lra].
  do 2 f_equal. lra.
Qed.

Lemma predator_step_far u selfPosition velocity limit :
  GLSL.length (predator_dir u selfPosition) >= 50 ->
  predator_step u selfPosition velocity limit = Some (velocity, limit).
Proof.
  intros Hd. unfold predator_step, preyRadius.
  destruct (Rlt_dec _ 50.0) as [H|_]; [exfalso; lra|reflexivity].
Qed.

(** The vector that the centre pull normalizes is zero only at the
    centre. *)
Lemma center_dir_zero_iff (p : vec3) :
  GLSL.set_y (p - Vec3 0 0 0) (GLSL.y (p - Vec3 0 0 0) * 2.5) = Vec3 0 0 0
  <-> p = Vec3 0 0 0.
Proof.
  destruct p as [px py pz]. unfold GLSL.set_y, GLSL.sub; simpl. split.
  - intros [= Hx Hy Hz]. f_equal; lra.
  - intros [= -> -> ->]. f_equal; lra.
Qed.

Lemma center_step_origin u velocity :
  center_step u (Vec3 0 0 0) velocity = None.
Proof.
  unfold center_step.
  replace (GLSL.set_y _ _) with (Vec3 0 0 0)
    by (symmetry; apply center_dir_zero_iff; reflexivity).
  rewrite normalize_zero. reflexivity.
Qed.

Lemma main_origin u g self :
  position self = Vec3 0 0 0 -> main u g self = None.
Proof.
  intros Hp. unfold main, update. rewrite Hp.
  destruct (predator_step _ _ _ _) as [[v l]|]; simpl; [|reflexivity].
  rewrite center_step_origin. reflexivity.
Qed.

End Steps.

(** C1, as the code has it.  The bound holds for every bird for which the
    kernel writes a velocity: its length is at most 15 if the planar
    distance of the bird to the predator is below 50 and at most 10
    otherwise.  The limit that [main] clamps to is 10, plus 5 exactly when
    the predator branch is taken; a velocity longer than the limit is
    rescaled to the length of the limit, any other is written unchanged.
    It does not hold for every bird: for a bird at the origin the centre
    pull normalizes the zero vector and [main] writes no velocity. *)
Theorem speed_bound (u : BoidVelocity.uniforms) (g : list BoidVelocity.bird)
    (self : BoidVelocity.bird) :
  let d := GLSL.length (BoidVelocity.predator_dir u (BoidVelocity.position self)) in
  (BoidVelocity.position self = Vec3 0 0 0 -> BoidVelocity.main u g self = None) /\
  (forall v, BoidVelocity.main u g self = Some v ->
     (d < 50 -> GLSL.length v <= 15) /\
     (~ d < 50 -> GLSL.length v <= 10) /\
     exists w limit,
       BoidVelocity.update u g self = Some (w, limit) /\
       limit = (if Rlt_dec d 50 then BoidVelocity.SPEED_LIMIT + 5
                else BoidVelocity.SPEED_LIMIT) /\
       BoidVelocity.SPEED_LIMIT = 10 /\
       GLSL.length v <= limit /\
       (GLSL.length w > limit -> GLSL.length v = limit) /\
       (GLSL.length w <= limit -> v = w)).
Proof.
  intros d. split; [apply main_origin|].
  intros v Hmain.
  destruct (main_inv _ _ _ _ Hmain) as (w & limit & Hupd & Hclamp).
  pose proof (update_limit _ _ _ _ _ Hupd) as Hlim. fold d in Hlim.
  assert (Hpos : 0 < limit) by (rewrite Hlim; destruct (Rlt_dec d 50); lra).
  destruct (clamp_spec _ _ _ Hpos Hclamp) as (Hle & Hgt & Hid).
  split; [|split].
  - intros Hd. destruct (Rlt_dec d 50); [lra|contradiction].
  - intros Hd. destruct (Rlt_dec d 50); [contradiction|lra].
  - exists w, limit. unfold BoidVelocity.SPEED_LIMIT.
    repeat split; try assumption; try lra.
    rewrite Hlim. destruct (Rlt_dec d 50); lra.
Qed.

(** C6.  With [dir] the vector from the bird to [predator * bounds], its z
    set to 0, and [d] its length: if [d < 50] the predator step adds
    [normalize(dir) * (d * d / (50 * 50) * dt * 160)] to the velocity and raises
    the limit by 5, and for [0 < d] the vector added has the length of that
    factor; if [d >= 50] the step changes neither the velocity nor the
    limit.  The limit the step starts from is 10. *)
Theorem predator_repulsion (u : BoidVelocity.uniforms) (selfPosition velocity : vec3)
    (limit : R) :
  let dir := GLSL.set_z (BoidVelocity.predator u * BoidVelocity.bounds u - selfPosition) 0 in
  let d := GLSL.length dir in
  let f := d * d / (50 * 50) * BoidVelocity.del_change u * 160 in
  (d < 50 ->
     BoidVelocity.predator_step u selfPosition velocity limit =
       (n ← GLSL.normalize dir; Some ((velocity + n * f)%vec, limit + 5))) /\
  (0 < d < 50 ->
     exists n, GLSL.normalize dir = Some n /\ GLSL.length (n * f) = Rabs f /\
       BoidVelocity.predator_step u selfPosition velocity limit =
         Some ((velocity + n * f)%vec, limit + 5)) /\
  (d >= 50 ->
     BoidVelocity.predator_step u selfPosition velocity limit = Some (velocity, limit)) /\
  BoidVelocity.SPEED_LIMIT = 10.
Proof.
  intros dir d f.
  assert (Hnear : d < 50 ->
     BoidVelocity.predator_step u selfPosition velocity limit =
       (n ← GLSL.normalize dir; Some ((velocity + n * f)%vec, limit + 5))).
  { intros Hd. apply (predator_step_near u selfPosition velocity limit Hd). }
  repeat split.
  - exact Hnear.
  - intros [Hd0 Hd50].
    exists (dir * / d)%vec.
    assert (Hn : GLSL.normalize dir = Some (dir * / d)%vec)
      by (apply normalize_Some; fold d; lra).
    split; [exact Hn|]. split.
    + rewrite length_scale, (normalize_unit _ _ Hn). ring.
    + rewrite (Hnear Hd50), Hn. reflexivity.
  - intros Hd. apply predator_step_far. exact Hd.
  - unfold BoidVelocity.SPEED_LIMIT. lra.
Qed.

(** C10.  The centre pull normalizes the position, its y scaled by 2.5,
    with no test of its length.  For a bird at the origin the normalization
    has no value, and neither has the velocity that [main] writes; for any
    other bird the step subtracts [n * dt * 6], with [n] of length one. *)
Theorem center_pull_unguarded (u : BoidVelocity.uniforms) (g : list BoidVelocity.bird)
    (self : BoidVelocity.bird) :
  let p := BoidVelocity.position self in
  let dir := GLSL.set_y p (GLSL.y p * 2.5) in
  (p = Vec3 0 0 0 ->
     GLSL.normalize dir = None /\
     (forall velocity, BoidVelocity.center_step u p velocity = None) /\
     BoidVelocity.main u g self = None) /\
  (p <> Vec3 0 0 0 ->
     exists n, GLSL.normalize dir = Some n /\ GLSL.length n = 1 /\
       forall velocity,
         BoidVelocity.center_step u p velocity =
           Some (velocity - n * BoidVelocity.del_change u * 6)%vec).
Proof.
  intros p dir.
  assert (Hdir : GLSL.set_y (p - Vec3 0 0 0) (GLSL.y (p - Vec3 0 0 0) * 2.5) = dir).
  { unfold dir. destruct p as [px py pz]. unfold GLSL.set_y, GLSL.sub; simpl.
    f_equal; lra. }
  split.
  - intros Hp. repeat split.
    + apply normalize_None_iff. rewrite <- Hdir. apply center_dir_zero_iff, Hp.
    + intros velocity. rewrite Hp. apply center_step_origin.
    + apply main_origin. exact Hp.
  - intros Hp.
    destruct (GLSL.normalize dir) as [n|] eqn:Hn.
    + exists n. split; [reflexivity|]. split; [apply (normalize_unit _ _ Hn)|].
      intros velocity. unfold BoidVelocity.center_step. cbv zeta.
      rewrite Hdir, Hn. reflexivity.
    + exfalso. apply Hp. apply center_dir_zero_iff. rewrite Hdir.
      apply normalize_None_iff, Hn.
Qed.

(** ** The neighbour scan *)

Section Scan.

Import BoidVelocity.

Implicit Types u : uniforms.
Implicit Types g : list bird.

Lemma neighbor_skip u selfPosition velocity b :
  GLSL.length (position b - selfPosition) < 0.0001 \/
  GLSL.length (position b - selfPosition) * GLSL.length (position b - selfPosition)
    > zoneRadiusSquared u ->
  neighbor u selfPosition velocity b = Some velocity.
Proof.
  intros H. unfold neighbor.
  destruct (Rlt_dec _ 0.0001) as [|Hfar]; [reflexivity|].
  destruct (Rgt_dec _ (zoneRadiusSquared u)) as [|Hin]; [reflexivity|].
  destruct H; contradiction.
Qed.

(** A texel that is not skipped lies within a zone radius that is not
    zero. *)
Lemma in_zone_radius_nonzero u (d : R) :
  ~ d < 0.0001 -> ~ d * d > zoneRadiusSquared u -> zoneRadius u <> 0.
Proof.
  unfold zoneRadiusSquared. intros Hd Hz Hzero. rewrite Hzero in Hz.
  apply Hz. nra.
Qed.

Lemma neighbor_in_zone u selfPosition velocity b :
  let dir := (position b - selfPosition)%vec in
  let d := GLSL.length dir in
  ~ d < 0.0001 -> ~ d * d > zoneRadiusSquared u ->
  neighbor u selfPosition velocity b =
    let percent := d * d / zoneRadiusSquared u in
    let sepT := separation_distance u / zoneRadius u in
    let alignT := (separation_distance u + alignment_distance u) / zoneRadius u in
    if Rlt_dec percent sepT then separation_rule u dir velocity percent sepT
    else if Rlt_dec percent alignT then
           alignment_rule u (BoidVelocity.velocity b) velocity percent sepT alignT
         else cohesion_rule u dir velocity percent alignT.
Proof.
  intros dir d Hd Hz.
  pose proof (in_zone_radius_nonzero u d Hd Hz) as HZ.
  unfold neighbor. fold dir. fold d.
  destruct (Rlt_dec d 0.0001) as [|_]; [contradiction|].
  destruct (Rgt_dec (d * d) (zoneRadiusSquared u)) as [|_]; [contradiction|].
  unfold separationThresh, alignmentThresh.
  assert (HZ2 : zoneRadiusSquared u <> 0) by (unfold zoneRadiusSquared; nra).
  rewrite !fdiv_Some by assumption.
  reflexivity.
Qed.

Lemma neighbor_zero_radius u selfPosition velocity b :
  zoneRadius u = 0 -> neighbor u selfPosition velocity b = Some velocity.
Proof.
  intros HZ. apply neighbor_skip.
  destruct (Rlt_dec (GLSL.length (position b - selfPosition)) 0.0001) as [H|H];
    [left; exact H|right].
  unfold zoneRadiusSquared. rewrite HZ. nra.
Qed.

Lemma scan_zero_radius u selfPosition g velocity :
  zoneRadius u = 0 -> scan u selfPosition g velocity = Some velocity.
Proof.
  intros HZ. induction g as [|b g IH]; simpl; [reflexivity|].
  rewrite neighbor_zero_radius by exact HZ. simpl. exact IH.
Qed.

Lemma predator_step_defined u selfPosition velocity :
  predator_dir u selfPosition <> Vec3 0 0 0 ->
  exists v limit,
    predator_step u selfPosition velocity SPEED_LIMIT = Some (v, limit) /\ 0 < limit.
Proof.
  intros Hdir. unfold predator_step, SPEED_LIMIT.
  destruct (Rlt_dec _ preyRadius).
  - rewrite normalize_Some by (rewrite length_zero_iff; exact Hdir).
    simpl. eexists _, _. split; [reflexivity|lra].
  - eexists _, _. split; [reflexivity|lra].
Qed.

Lemma center_step_defined u selfPosition velocity :
  selfPosition <> Vec3 0 0 0 -> is_Some (center_step u selfPosition velocity).
Proof.
  intros Hp. unfold center_step. cbv zeta.
  rewrite normalize_Some; [simpl; eauto|].
  rewrite length_zero_iff, center_dir_zero_iff. exact Hp.
Qed.

End Scan.

(** C7.  For distances that are not negative, with [d] the distance from
    the bird to the texel, [Z] the zone radius and [percent = d * d / (Z * Z)]:
    the texel leaves the velocity unchanged if [d < 0.0001] or
    [d * d > Z * Z]; otherwise [Z] is not zero, the thresholds
    [separation / Z] and [(separation + alignment) / Z] split [(0, 1]] in
    three, and the rule applied is the separation rule below the first
    threshold, the alignment rule between the two, and the cohesion rule
    from the second up to 1. *)
Theorem neighbor_zones (u : BoidVelocity.uniforms) (selfPosition velocity : vec3)
    (b : BoidVelocity.bird) :
  0 <= BoidVelocity.separation_distance u ->
  0 <= BoidVelocity.alignment_distance u ->
  0 <= BoidVelocity.cohesion_distance u ->
  let dir := (BoidVelocity.position b - selfPosition)%vec in
  let d := GLSL.length dir in
  let Z := BoidVelocity.separation_distance u + BoidVelocity.alignment_distance u
           + BoidVelocity.cohesion_distance u in
  let percent := d * d / (Z * Z) in
  let sepThresh := BoidVelocity.separation_distance u / Z in
  let alignThresh :=
    (BoidVelocity.separation_distance u + BoidVelocity.alignment_distance u) / Z in
  (d < 0.0001 \/ d * d > Z * Z ->
     BoidVelocity.neighbor u selfPosition velocity b = Some velocity) /\
  (~ d < 0.0001 -> ~ d * d > Z * Z ->
     Z <> 0 /\
     BoidVelocity.separationThresh u = Some sepThresh /\
     BoidVelocity.alignmentThresh u = Some alignThresh /\
     0 < percent <= 1 /\ 0 <= sepThresh <= alignThresh /\ alignThresh <= 1 /\
     (percent < sepThresh ->
        BoidVelocity.neighbor u selfPosition velocity b =
          BoidVelocity.separation_rule u dir velocity percent sepThresh) /\
     (sepThresh <= percent < alignThresh ->
        BoidVelocity.neighbor u selfPosition velocity b =
          BoidVelocity.alignment_rule u (BoidVelocity.velocity b) velocity
            percent sepThresh alignThresh) /\
     (alignThresh <= percent <= 1 ->
        BoidVelocity.neighbor u selfPosition velocity b =
          BoidVelocity.cohesion_rule u dir velocity percent alignThresh)).
Proof.
  intros Hs Ha Hc dir d Z percent sepThresh alignThresh. split.
  - intros H. apply neighbor_skip. exact H.
  - intros Hd Hz.
    assert (HZ : Z <> 0) by (apply (in_zone_radius_nonzero u d Hd Hz)).
    assert (HZpos : 0 < Z) by (unfold Z in *; lra).
    assert (Hdd : 0 < d * d) by nra.
    assert (HZZ : 0 < Z * Z) by nra.
    assert (Hp1 : percent <= 1).
    { unfold percent. apply Rmult_le_reg_r with (Z * Z); [exact HZZ|].
      replace (d * d / (Z * Z) * (Z * Z)) with (d * d) by (field; lra). lra. }
    assert (Hp0 : 0 < percent) by (apply Rdiv_lt_0_compat; assumption).
    assert (Hs0 : 0 <= sepThresh).
    { unfold sepThresh, Rdiv. apply Rmult_le_pos; [exact Hs|].
      left. apply Rinv_0_lt_compat, HZpos. }
    assert (Hsa : sepThresh <= alignThresh).
    { unfold sepThresh, alignThresh, Rdiv. apply Rmult_le_compat_r; [|lra].
      left. apply Rinv_0_lt_compat, HZpos. }
    assert (Ha1 : alignThresh <= 1).
    { unfold alignThresh. apply Rmult_le_reg_r with Z; [exact HZpos|].
      replace ((BoidVelocity.separation_distance u + BoidVelocity.alignment_distance u)
               / Z * Z)
        with (BoidVelocity.separation_distance u + BoidVelocity.alignment_distance u)
        by (field; lra).
      unfold Z. lra. }
    pose proof (neighbor_in_zone u selfPosition velocity b Hd Hz) as Hn.
    cbv zeta in Hn. fold dir d in Hn.
    change (BoidVelocity.zoneRadius u) with Z in Hn.
    change (BoidVelocity.zoneRadiusSquared u) with (Z * Z) in Hn.
    fold percent sepThresh alignThresh in Hn.
    repeat split; try assumption.
    + apply fdiv_Some, HZ.
    + apply fdiv_Some, HZ.
    + intros Hlt. rewrite Hn.
      destruct (Rlt_dec percent sepThresh); [reflexivity|contradiction].
    + intros [Hge Hlt]. rewrite Hn.
      destruct (Rlt_dec percent sepThresh); [lra|].
      destruct (Rlt_dec percent alignThresh); [reflexivity|contradiction].
    + intros [Hge _]. rewrite Hn.
      destruct (Rlt_dec percent sepThresh); [lra|].
      destruct (Rlt_dec percent alignThresh); [lra|reflexivity].
Qed.

(** C4, as the code has it.  When the zone radius is zero, the two
    thresholds are quotients by zero and have no value, but nothing uses
    them: every texel is skipped, the scan leaves the velocity as it is,
    and [main] is the predator step, the centre pull and the clamp.  Its
    result has a value for every bird that is neither at the origin nor, in
    the plane, at the predator. *)
Theorem zero_zone_radius (u : BoidVelocity.uniforms) (g : list BoidVelocity.bird)
    (self : BoidVelocity.bird) :
  BoidVelocity.zoneRadius u = 0 ->
  BoidVelocity.separationThresh u = None /\
  BoidVelocity.alignmentThresh u = None /\
  (forall selfPosition velocity b,
     BoidVelocity.neighbor u selfPosition velocity b = Some velocity) /\
  (forall selfPosition velocity,
     BoidVelocity.scan u selfPosition g velocity = Some velocity) /\
  BoidVelocity.main u g self =
    ('(v, limit) ← BoidVelocity.predator_step u (BoidVelocity.position self)
                     (BoidVelocity.velocity self) BoidVelocity.SPEED_LIMIT;
     v ← BoidVelocity.center_step u (BoidVelocity.position self) v;
     BoidVelocity.clamp v limit) /\
  (BoidVelocity.position self <> Vec3 0 0 0 ->
   BoidVelocity.predator_dir u (BoidVelocity.position self) <> Vec3 0 0 0 ->
   is_Some (BoidVelocity.main u g self)).
Proof.
  intros HZ.
  assert (Hmain : BoidVelocity.main u g self =
    ('(v, limit) ← BoidVelocity.predator_step u (BoidVelocity.position self)
                     (BoidVelocity.velocity self) BoidVelocity.SPEED_LIMIT;
     v ← BoidVelocity.center_step u (BoidVelocity.position self) v;
     BoidVelocity.clamp v limit)).
  { unfold BoidVelocity.main, BoidVelocity.update.
    destruct (BoidVelocity.predator_step _ _ _ _) as [[v1 l1]|]; simpl; [|reflexivity].
    destruct (BoidVelocity.center_step _ _ _) as [v2|]; simpl; [|reflexivity].
    rewrite scan_zero_radius by exact HZ. reflexivity. }
  repeat split.
  - unfold BoidVelocity.separationThresh. rewrite HZ. apply fdiv_zero.
  - unfold BoidVelocity.alignmentThresh. rewrite HZ. apply fdiv_zero.
  - intros. apply neighbor_zero_radius, HZ.
  - intros. apply scan_zero_radius, HZ.
  - exact Hmain.
  - intros Hp Hd. rewrite Hmain.
    destruct (predator_step_defined u _ (BoidVelocity.velocity self) Hd)
      as (v1 & l1 & -> & Hl1). simpl.
    destruct (center_step_defined u _ v1 Hp) as [v2 ->]. simpl.
    apply clamp_defined, Hl1.
Qed.

(** ** The two-bird scenario *)

Section ScenarioFacts.

Import BoidVelocity.

Lemma normalize_x_pos (k : R) :
  0 < k -> GLSL.normalize (Vec3 k 0 0) = Some (Vec3 1 0 0).
Proof.
  intros Hk.
  assert (Hl : GLSL.length (Vec3 k 0 0) = k)
    by (rewrite length_x_axis; apply Rabs_pos_eq; lra).
  rewrite normalize_Some by lra. rewrite Hl.
  f_equal. apply vec3_eq; simpl; field; lra.
Qed.

Lemma normalize_x_neg (k : R) :
  k < 0 -> GLSL.normalize (Vec3 k 0 0) = Some (Vec3 (-1) 0 0).
Proof.
  intros Hk.
  assert (Hl : GLSL.length (Vec3 k 0 0) = - k)
    by (rewrite length_x_axis; apply Rabs_left; lra).
  rewrite normalize_Some by lra. rewrite Hl.
  f_equal. apply vec3_eq; simpl; field; lra.
Qed.

Lemma length_x_pos (k : R) : 0 <= k -> GLSL.length (Vec3 k 0 0) = k.
Proof. intros Hk. rewrite length_x_axis. apply Rabs_pos_eq, Hk. Qed.

Lemma scenario_zone (p : vec3) :
  zoneRadius (Scenario.uniforms p) = 70 /\
  zoneRadiusSquared (Scenario.uniforms p) = 4900.
Proof. unfold zoneRadiusSquared, zoneRadius; simpl. split; lra. Qed.

(** The weight of the separation rule at the distance of the scenario. *)
Lemma scenario_weight (p : vec3) :
  separation_weight (Scenario.uniforms p) (10 * 10 / 4900) (20 / 70) = Some 0.208.
Proof.
  unfold separation_weight. rewrite fdiv_Some by lra. simpl.
  f_equal. lra.
Qed.

(** What the texel of [B] does to the velocity of [A], and the texel of
    [A] to the velocity of [B]. *)
Lemma scenario_neighbor_B (p v : vec3) :
  neighbor (Scenario.uniforms p) (position Scenario.A) v Scenario.B =
    Some (v - Vec3 1 0 0 * 0.208)%vec.
Proof.
  assert (Hdir : (position Scenario.B - position Scenario.A)%vec = Vec3 10 0 0)
    by (apply vec3_eq; simpl; lra).
  destruct (scenario_zone p) as [HZ HZ2].
  rewrite neighbor_in_zone; rewrite Hdir, length_x_pos by lra; [| lra | lra].
  cbv zeta. rewrite HZ, HZ2. simpl separation_distance. simpl alignment_distance.
  destruct (Rlt_dec (10 * 10 / 4900) (20 / 70)) as [_|H]; [|exfalso; lra].
  unfold separation_rule. rewrite scenario_weight. simpl.
  rewrite normalize_x_pos by lra. reflexivity.
Qed.

Lemma scenario_neighbor_A (p v : vec3) :
  neighbor (Scenario.uniforms p) (position Scenario.B) v Scenario.A =
    Some (v - Vec3 (-1) 0 0 * 0.208)%vec.
Proof.
  assert (Hdir : (position Scenario.A - position Scenario.B)%vec = Vec3 (-10) 0 0)
    by (apply vec3_eq; simpl; lra).
  assert (Hlen : GLSL.length (Vec3 (-10) 0 0) = 10)
    by (rewrite length_x_axis; rewrite Rabs_left; lra).
  destruct (scenario_zone p) as [HZ HZ2].
  rewrite neighbor_in_zone; rewrite Hdir, Hlen; [| lra | lra].
  cbv zeta. rewrite HZ, HZ2. simpl separation_distance. simpl alignment_distance.
  destruct (Rlt_dec (10 * 10 / 4900) (20 / 70)) as [_|H]; [|exfalso; lra].
  unfold separation_rule. rewrite scenario_weight. simpl.
  rewrite normalize_x_neg by lra. reflexivity.
Qed.

(** A texel at the bird's own position is skipped. *)
Lemma neighbor_self (u : uniforms) (v : vec3) (b : bird) :
  neighbor u (position b) v b = Some v.
Proof.
  apply neighbor_skip. left.
  replace (position b - position b)%vec with (Vec3 0 0 0)
    by (apply vec3_eq; simpl; lra).
  rewrite length_x_pos; lra.
Qed.

Lemma scenario_center_B (p v : vec3) :
  center_step (Scenario.uniforms p) (position Scenario.B) v =
    Some (v - Vec3 1 0 0 * 0.016 * 6)%vec.
Proof.
  unfold center_step. cbv zeta.
  replace (GLSL.set_y _ _) with (Vec3 10 0 0) by (apply vec3_eq; simpl; lra).
  rewrite normalize_x_pos by lra. reflexivity.
Qed.

Lemma clamp_below (v : vec3) (limit : R) :
  GLSL.length v <= limit -> clamp v limit = Some v.
Proof.
  intros H. unfold clamp.
  destruct (Rgt_dec (GLSL.length v) limit); [exfalso; lra|reflexivity].
Qed.

Lemma scenario_scan_B (p v : vec3) :
  scan (Scenario.uniforms p) (position Scenario.B) [Scenario.A; Scenario.B] v =
    Some (v - Vec3 (-1) 0 0 * 0.208)%vec.
Proof.
  unfold scan. rewrite scenario_neighbor_A. cbn [mbind option_bind].
  rewrite neighbor_self. reflexivity.
Qed.

(** The velocity of [B] after one update, the predator out of reach. *)
Lemma scenario_main_B (p : vec3) :
  GLSL.length (predator_dir (Scenario.uniforms p) (position Scenario.B)) >= 50 ->
  main (Scenario.uniforms p) [Scenario.A; Scenario.B] Scenario.B =
    Some (Vec3 0.112 0 0).
Proof.
  intros Hfar. unfold main, update.
  rewrite predator_step_far by exact Hfar. cbn [mbind option_bind].
  rewrite scenario_center_B. cbn [mbind option_bind].
  rewrite scenario_scan_B. cbn [mbind option_bind].
  replace (velocity Scenario.B - Vec3 1 0 0 * 0.016 * 6 - Vec3 (-1) 0 0 * 0.208)%vec
    with (Vec3 0.112 0 0) by (apply vec3_eq; simpl; lra).
  apply clamp_below. rewrite length_x_pos; unfold SPEED_LIMIT; lra.
Qed.

(** The fast bird: the predator, ten units away, takes 0.1024 off its
    speed and raises the limit to 15, the centre pull takes off 0.096, its
    own texel is skipped, and the clamp rescales what is left. *)
Lemma fast_update :
  update (Scenario.uniforms (Vec3 0 0 0)) [Flock.fast] Flock.fast =
    Some (Vec3 99.8016 0 0, 15).
Proof.
  set (u := Scenario.uniforms (Vec3 0 0 0)).
  assert (Hdir : predator_dir u (position Flock.fast) = Vec3 (-10) 0 0)
    by (apply vec3_eq; simpl; lra).
  assert (Hlen : GLSL.length (Vec3 (-10) 0 0) = 10)
    by (rewrite length_x_axis; rewrite Rabs_left; lra).
  unfold update. cbv zeta.
  rewrite predator_step_near by (rewrite Hdir, Hlen; lra).
  rewrite Hdir, Hlen, normalize_x_neg by lra. cbn [mbind option_bind].
  unfold center_step. cbv zeta.
  replace (GLSL.set_y _ _) with (Vec3 10 0 0) by (apply vec3_eq; simpl; lra).
  rewrite normalize_x_pos by lra. cbn [mbind option_bind].
  unfold scan. rewrite neighbor_self. cbn [mbind option_bind].
  f_equal. f_equal; [apply vec3_eq; simpl; lra|unfold SPEED_LIMIT; lra].
Qed.

Lemma fast_main :
  main (Scenario.uniforms (Vec3 0 0 0)) [Flock.fast] Flock.fast = Some (Vec3 15 0 0).
Proof.
  unfold main. rewrite fast_update. cbn [mbind option_bind]. unfold clamp.
  rewrite length_x_pos by lra.
  destruct (Rgt_dec 99.8016 15) as [_|H]; [|exfalso; lra].
  rewrite normalize_x_pos by lra. cbn [mbind option_bind].
  f_equal. apply vec3_eq; simpl; lra.
Qed.

Lemma scenario_far_B :
  GLSL.length (predator_dir (Scenario.uniforms Scenario.far) (position Scenario.B)) = 490.
Proof.
  unfold predator_dir.
  replace (GLSL.set_z _ _) with (Vec3 490 0 0) by (apply vec3_eq; simpl; lra).
  apply length_x_pos. lra.
Qed.

End ScenarioFacts.

(** C5, as the code has it.  In the scenario of the specification
    ([Z = 70], [percent = 100 / 4900] below the threshold [20 / 70], weight
    [(sepThresh / percent - 1) * dt = 0.208]): the texel of [B] pushes the
    velocity of [A] by 0.208 along [(-1, 0, 0)] and the texel of [A] pushes
    that of [B] by 0.208 along [(1, 0, 0)]; with the predator out of reach,
    the velocity written for [B] is [(0.112, 0, 0)], the push less the
    centre pull of 0.096; the velocity written for [A], which sits at the
    origin, has no value. *)
Theorem scenario_two_birds (p : vec3) :
  let u := Scenario.uniforms p in
  BoidVelocity.zoneRadius u = 70 /\
  BoidVelocity.separationThresh u = Some (20 / 70) /\
  BoidVelocity.separation_weight u (10 * 10 / 4900) (20 / 70) = Some 0.208 /\
  (forall v, BoidVelocity.neighbor u (BoidVelocity.position Scenario.A) v Scenario.B =
             Some (v - Vec3 1 0 0 * 0.208)%vec) /\
  (forall v, BoidVelocity.neighbor u (BoidVelocity.position Scenario.B) v Scenario.A =
             Some (v - Vec3 (-1) 0 0 * 0.208)%vec) /\
  BoidVelocity.main u [Scenario.A; Scenario.B] Scenario.A = None /\
  (GLSL.length (BoidVelocity.predator_dir u (BoidVelocity.position Scenario.B)) >= 50 ->
   BoidVelocity.main u [Scenario.A; Scenario.B] Scenario.B = Some (Vec3 0.112 0 0)).
Proof.
  intros u. subst u. destruct (scenario_zone p) as [HZ _].
  repeat split.
  - exact HZ.
  - unfold BoidVelocity.separationThresh. rewrite HZ.
    apply fdiv_Some. lra.
  - apply scenario_weight.
  - intros v. apply scenario_neighbor_B.
  - intros v. apply scenario_neighbor_A.
  - apply main_origin. reflexivity.
  - apply scenario_main_B.
Qed.

Lemma scenario_two_birds_witness :
  BoidVelocity.main (Scenario.uniforms Scenario.far) [Scenario.A; Scenario.B] Scenario.B
  = Some (Vec3 0.112 0 0).
Proof.
  apply (scenario_two_birds Scenario.far).
  rewrite scenario_far_B. lra.
Defined.

(** The velocity that one update writes for [A] in the scenario is not a
    vector: the centre pull normalizes the zero vector. *)
Lemma scenario_A_undefined :
  BoidVelocity.center_step (Scenario.uniforms Scenario.far)
    (BoidVelocity.position Scenario.A) (BoidVelocity.velocity Scenario.A) = None /\
  ~ exists v, BoidVelocity.main (Scenario.uniforms Scenario.far)
                [Scenario.A; Scenario.B] Scenario.A = Some v.
Proof.
  split.
  - apply center_step_origin.
  - intros [v Hv]. rewrite main_origin in Hv by reflexivity. discriminate.
Qed.

Lemma speed_bound_witness :
  BoidVelocity.update (Scenario.uniforms (Vec3 0 0 0)) [Flock.fast] Flock.fast
    = Some (Vec3 99.8016 0 0, 15) /\
  BoidVelocity.main (Scenario.uniforms (Vec3 0 0 0)) [Flock.fast] Flock.fast
    = Some (Vec3 15 0 0) /\
  GLSL.length (Vec3 15 0 0) = 15.
Proof.
  split; [apply fast_update|]. split; [apply fast_main|].
  destruct (speed_bound (Scenario.uniforms (Vec3 0 0 0)) [Flock.fast] Flock.fast)
    as [_ H].
  destruct (H (Vec3 15 0 0) fast_main)
    as (_ & _ & w & limit & Hupd & _ & _ & _ & Hgt & _).
  rewrite fast_update in Hupd. apply (inj Some) in Hupd.
  injection Hupd as <- <-.
  apply Hgt. rewrite length_x_pos; lra.
Defined.

(** A bird for which the bound fails: at the origin [main] writes no
    velocity, so none of length at most 10, whatever the bird's velocity
    was. *)
Lemma speed_unbounded_at_origin :
  BoidVelocity.main (Scenario.uniforms Scenario.far) [Flock.central] Flock.central
    = None /\
  ~ exists v, BoidVelocity.main (Scenario.uniforms Scenario.far)
                [Flock.central] Flock.central = Some v /\
              GLSL.length v <= 10.
Proof.
  assert (H : BoidVelocity.main (Scenario.uniforms Scenario.far)
                [Flock.central] Flock.central = None)
    by (apply main_origin; reflexivity).
  split; [exact H|]. intros (v & Hv & _). rewrite H in Hv. discriminate.
Qed.

Lemma predator_repulsion_witness :
  exists n,
    GLSL.normalize (Vec3 (-10) 0 0) = Some n /\
    BoidVelocity.predator_step (Scenario.uniforms (Vec3 0 0 0))
      (BoidVelocity.position Scenario.B) (Vec3 0 0 0) 10 =
      Some ((Vec3 0 0 0 + n * 0.1024)%vec, 15).
Proof.
  assert (Hdir : GLSL.set_z
            (BoidVelocity.predator (Scenario.uniforms (Vec3 0 0 0))
             * BoidVelocity.bounds (Scenario.uniforms (Vec3 0 0 0))
             - BoidVelocity.position Scenario.B) 0 = Vec3 (-10) 0 0)
    by (apply vec3_eq; simpl; lra).
  assert (Hlen : GLSL.length (Vec3 (-10) 0 0) = 10)
    by (rewrite length_x_axis; rewrite Rabs_left; lra).
  destruct (proj1 (proj2 (predator_repulsion (Scenario.uniforms (Vec3 0 0 0))
              (BoidVelocity.position Scenario.B) (Vec3 0 0 0) 10)))
    as (n & Hn & _ & Hstep).
  - rewrite Hdir, Hlen. lra.
  - rewrite Hdir in Hn. rewrite Hdir, Hlen in Hstep.
    exists n. split; [exact Hn|]. rewrite Hstep.
    do 2 f_equal; [|lra]. do 2 f_equal. simpl. lra.
Defined.

Lemma neighbor_zones_witness :
  BoidVelocity.neighbor (Scenario.uniforms Scenario.far)
    (BoidVelocity.position Scenario.A) (Vec3 0 0 0) Scenario.B
  = BoidVelocity.separation_rule (Scenario.uniforms Scenario.far) (Vec3 10 0 0)
      (Vec3 0 0 0) (10 * 10 / (70 * 70)) (20 / 70).
Proof.
  assert (Hdir : (BoidVelocity.position Scenario.B - BoidVelocity.position Scenario.A)%vec
                 = Vec3 10 0 0) by (apply vec3_eq; simpl; lra).
  pose proof (length_x_pos 10 ltac:(lra)) as Hlen.
  destruct (neighbor_zones (Scenario.uniforms Scenario.far)
              (BoidVelocity.position Scenario.A) (Vec3 0 0 0) Scenario.B)
    as [_ Hin]; try (simpl; lra).
  rewrite Hdir, Hlen in Hin. simpl BoidVelocity.separation_distance in Hin.
  simpl BoidVelocity.alignment_distance in Hin.
  simpl BoidVelocity.cohesion_distance in Hin.
  replace (20 + 30 + 20) with 70 in Hin by lra.
  destruct Hin as (_ & _ & _ & _ & _ & _ & Hsep & _); try lra.
  apply Hsep. lra.
Defined.

Lemma center_pull_unguarded_witness :
  BoidVelocity.main (Scenario.uniforms Scenario.far) [Scenario.A; Scenario.B] Scenario.A
    = None /\
  exists n, GLSL.length n = 1 /\
    BoidVelocity.center_step (Scenario.uniforms Scenario.far)
      (BoidVelocity.position Scenario.B) (Vec3 0 0 0) =
      Some (Vec3 0 0 0 - n * 0.016 * 6)%vec.
Proof.
  split.
  - apply (center_pull_unguarded (Scenario.uniforms Scenario.far)
             [Scenario.A; Scenario.B] Scenario.A). reflexivity.
  - destruct (proj2 (center_pull_unguarded (Scenario.uniforms Scenario.far)
                       [Scenario.A; Scenario.B] Scenario.B))
      as (n & _ & Hlen & Hstep).
    + simpl. intros [= H]. lra.
    + exists n. split; [exact Hlen|]. apply Hstep.
Defined.

Lemma zero_zone_radius_witness :
  BoidVelocity.separationThresh Scenario.degenerate = None /\
  is_Some (BoidVelocity.main Scenario.degenerate [Scenario.A; Scenario.B] Scenario.B).
Proof.
  destruct (zero_zone_radius Scenario.degenerate [Scenario.A; Scenario.B] Scenario.B)
    as (Hsep & _ & _ & _ & _ & Hdef).
  - unfold BoidVelocity.zoneRadius. simpl. lra.
  - split; [exact Hsep|]. apply Hdef.
    + simpl. intros [= H]. lra.
    + unfold BoidVelocity.predator_dir. simpl. intros [= H]. lra.
Defined.

(** With all zone distances zero the kernel does divide by zero, twice, and
    the velocity it writes for a bird at the origin has no value. *)
Lemma zero_zone_radius_divides :
  BoidVelocity.zoneRadius Scenario.degenerate = 0 /\
  BoidVelocity.separationThresh Scenario.degenerate = GLSL.fdiv 0 0 /\
  GLSL.fdiv 0 0 = None /\
  BoidVelocity.alignmentThresh Scenario.degenerate = None /\
  BoidVelocity.main Scenario.degenerate [Scenario.A; Scenario.B] Scenario.A = None.
Proof.
  assert (HZ : BoidVelocity.zoneRadius Scenario.degenerate = 0)
    by (unfold BoidVelocity.zoneRadius; simpl; lra).
  repeat split.
  - exact HZ.
  - unfold BoidVelocity.separationThresh. rewrite HZ. reflexivity.
  - apply fdiv_zero.
  - unfold BoidVelocity.alignmentThresh. rewrite HZ. apply fdiv_zero.
  - apply main_origin. reflexivity.
Qed.

(** ** The weights at the zone boundaries *)

Section Weights.

Import BoidVelocity.

(** Two bounds on the real number pi that separate it from the constant
    [PI] of the shader. *)
Lemma pi_lower : 3.14159 < Rtrigo1.PI.
Proof.
  pose proof (PI_2_3_7_ineq 3) as [H _].
  unfold sum_f_R0, tg_alt, PI_2_3_7_tg, Ratan_seq in H.
  simpl in H. lra.
Qed.

Lemma pi_upper : Rtrigo1.PI < 3.1416.
Proof.
  pose proof (PI_2_3_7_ineq 3) as [_ H].
  unfold sum_f_R0, tg_alt, PI_2_3_7_tg, Ratan_seq in H.
  simpl in H. lra.
Qed.

(** [PI_2] falls short of a full turn, by little. *)
Lemma cos_PI_2_bounds : 1 - 0.0000000002 < cos PI_2 < 1.
Proof.
  pose proof pi_lower as Hlo. pose proof pi_upper as Hhi.
  set (h := Rtrigo1.PI - 3.14159).
  assert (Hh : 0 < h < 0.00001) by (unfold h; lra).
  assert (Hcos : cos PI_2 = 1 - 2 * sin h * sin h).
  { rewrite <- cos_2a_sin, <- (cos_neg (2 * h)).
    rewrite <- (cos_period (- (2 * h)) 1).
    f_equal. unfold PI_2, PI, h. simpl INR. lra. }
  assert (Hs0 : 0 < sin h) by (apply sin_gt_0; lra).
  assert (Hs1 : sin h < h) by (apply sin_lt_x; lra).
  rewrite Hcos. split; nra.
Qed.

Lemma alignment_weight_inner u : alignment_weight u 0 = 0.5 * del_change u.
Proof.
  unfold alignment_weight. rewrite Rmult_0_l, cos_0. lra.
Qed.

Lemma cohesion_weight_inner u : cohesion_weight u 0 = 0.5 * del_change u.
Proof.
  unfold cohesion_weight. rewrite Rmult_0_l, cos_0. lra.
Qed.

Lemma separation_weight_outer u (sepT : R) :
  sepT <> 0 -> separation_weight u sepT sepT = Some 0.
Proof.
  intros H. unfold separation_weight. rewrite fdiv_Some by exact H. simpl.
  f_equal. replace (sepT / sepT) with 1 by (field; exact H). lra.
Qed.

Lemma alignment_weight_range u (t : R) :
  0 <= del_change u ->
  0.5 * del_change u <= alignment_weight u t <= 1.5 * del_change u.
Proof.
  intros Hdt. unfold alignment_weight.
  pose proof (COS_bound (t * PI_2)) as [Hlo Hhi]. split; nra.
Qed.

End Weights.

(** C3, as the code has it.  At [percent = sepThresh] the separation weight
    is 0, but the alignment weight [(0.5 - cos(t * PI_2) * 0.5 + 0.5) * dt] is
    [0.5 * dt] at its inner edge [t = 0], and for [dt >= 0] it stays between
    [0.5 * dt] and [1.5 * dt]: the applied weight jumps by [0.5 * dt] there.
    At [percent = alignThresh] the alignment weight at [t = 1] and the
    cohesion weight at [t = 0], which is [0.5 * dt], differ by
    [0.5 * dt * (1 - cos PI_2)], at most [dt / 10^10] in absolute value.
    The alignment rule and the cohesion rule at the inner edge of their zone
    add [0.5 * dt] times a unit vector. *)
Theorem zone_boundary_weights (u : BoidVelocity.uniforms) :
  (forall sepT, sepT <> 0 -> BoidVelocity.separation_weight u sepT sepT = Some 0) /\
  BoidVelocity.alignment_weight u 0 = 0.5 * BoidVelocity.del_change u /\
  (forall birdVelocity velocity sepT alignT,
     alignT <> sepT ->
     BoidVelocity.alignment_rule u birdVelocity velocity sepT sepT alignT =
       (n ← GLSL.normalize birdVelocity;
        Some (velocity + n * (0.5 * BoidVelocity.del_change u))%vec)) /\
  (forall t, 0 <= BoidVelocity.del_change u ->
     0.5 * BoidVelocity.del_change u <= BoidVelocity.alignment_weight u t
       <= 1.5 * BoidVelocity.del_change u) /\
  BoidVelocity.cohesion_weight u 0 = 0.5 * BoidVelocity.del_change u /\
  (forall dir velocity alignT,
     alignT <> 1 ->
     BoidVelocity.cohesion_rule u dir velocity alignT alignT =
       (n ← GLSL.normalize dir;
        Some (velocity + n * (0.5 * BoidVelocity.del_change u))%vec)) /\
  BoidVelocity.alignment_weight u 1 - BoidVelocity.cohesion_weight u 0 =
    0.5 * BoidVelocity.del_change u * (1 - cos BoidVelocity.PI_2) /\
  Rabs (BoidVelocity.alignment_weight u 1 - BoidVelocity.cohesion_weight u 0)
    <= 0.0000000001 * Rabs (BoidVelocity.del_change u).
Proof.
  assert (Hdiff : BoidVelocity.alignment_weight u 1 - BoidVelocity.cohesion_weight u 0 =
                  0.5 * BoidVelocity.del_change u * (1 - cos BoidVelocity.PI_2)).
  { rewrite cohesion_weight_inner. unfold BoidVelocity.alignment_weight.
    rewrite Rmult_1_l. lra. }
  repeat split.
  - intros sepT H. apply separation_weight_outer, H.
  - apply alignment_weight_inner.
  - intros bv v sepT alignT H. unfold BoidVelocity.alignment_rule. cbv zeta.
    rewrite fdiv_Some by lra. cbn [mbind option_bind].
    replace ((sepT - sepT) / (alignT - sepT)) with 0 by (field; lra).
    rewrite alignment_weight_inner. reflexivity.
  - apply alignment_weight_range. assumption.
  - apply alignment_weight_range. assumption.
  - apply cohesion_weight_inner.
  - intros dir v alignT H. unfold BoidVelocity.cohesion_rule. cbv zeta.
    rewrite fdiv_Some by lra. cbn [mbind option_bind].
    replace ((alignT - alignT) / (1.0 - alignT)) with 0 by (field; lra).
    rewrite cohesion_weight_inner. reflexivity.
  - exact Hdiff.
  - rewrite Hdiff. pose proof cos_PI_2_bounds as [Hlo Hhi].
    rewrite Rabs_mult, Rabs_mult.
    rewrite (Rabs_pos_eq 0.5) by lra.
    rewrite (Rabs_pos_eq (1 - cos BoidVelocity.PI_2)) by lra.
    pose proof (Rabs_pos (BoidVelocity.del_change u)). nra.
Qed.

Lemma zone_boundary_weights_witness :
  BoidVelocity.separation_weight (Scenario.uniforms Scenario.far) (20 / 70) (20 / 70)
    = Some 0 /\
  0.5 * 0.016 <= BoidVelocity.alignment_weight (Scenario.uniforms Scenario.far) 0.5
    <= 1.5 * 0.016.
Proof.
  destruct (zone_boundary_weights (Scenario.uniforms Scenario.far))
    as (Hsep & _ & _ & Hrange & _).
  split.
  - apply Hsep. lra.
  - apply Hrange. simpl. lra.
Defined.

(** At the inner edge of the alignment zone the weight is not 0: with the
    time step of the scenario the separation weight ends at 0 where the
    alignment weight starts at 0.008. *)
Lemma alignment_weight_jump :
  BoidVelocity.separation_weight (Scenario.uniforms Scenario.far) (20 / 70) (20 / 70)
    = Some 0 /\
  BoidVelocity.alignment_weight (Scenario.uniforms Scenario.far) 0 = 0.008 /\
  BoidVelocity.alignment_weight (Scenario.uniforms Scenario.far) 0 <> 0.
Proof.
  assert (H : BoidVelocity.alignment_weight (Scenario.uniforms Scenario.far) 0 = 0.008).
  { rewrite alignment_weight_inner. simpl. lra. }
  repeat split.
  - apply separation_weight_outer. lra.
  - exact H.
  - rewrite H. lra.
Qed.

(** ** The pointer and the predator uniform *)

Section Pointer.

Import Starlings.

(** A frame that finds the pointer in range takes it as the predator and
    moves the pointer to [(10000, 10000)]. *)
Lemma render_in_range (now : R) (s : sim) :
  Math_abs (mouseX s) < halfX s * 10 -> Math_abs (mouseY s) < halfY s * 10 ->
  render now s =
    Sim (sim_options s) (birdsCount s) (halfX s) (halfY s) now 10000 10000
      (set_predator (set_time (uniformVelocity s) now (frame_delta now s))
         (Vec3 (0.5 * mouseX s / halfX s) (-0.5 * mouseY s / halfY s) 0)).
Proof.
  intros Hx Hy. unfold render.
  rewrite !bool_decide_eq_true_2 by assumption. reflexivity.
Qed.

(** Any other frame leaves the pointer and the predator uniform as they
    were. *)
Lemma render_out_of_range (now : R) (s : sim) :
  ~ (Math_abs (mouseX s) < halfX s * 10 /\ Math_abs (mouseY s) < halfY s * 10) ->
  render now s =
    Sim (sim_options s) (birdsCount s) (halfX s) (halfY s) now (mouseX s) (mouseY s)
      (set_time (uniformVelocity s) now (frame_delta now s)).
Proof.
  intros H. unfold render.
  destruct (bool_decide (Math_abs (mouseX s) < halfX s * 10)) eqn:Hx;
    [destruct (bool_decide (Math_abs (mouseY s) < halfY s * 10)) eqn:Hy|];
    try reflexivity.
  exfalso. apply H. split; eapply bool_decide_eq_true_1; eassumption.
Qed.

(** Once the pointer sits at [(10000, 10000)] in a window at most 2000
    pixels wide, no later frame changes the predator uniform. *)
Lemma frames_keep_predator (nows : list R) (s : sim) :
  mouseX s = 10000 -> halfX s <= 1000 ->
  BoidVelocity.predator (uniformVelocity (frames nows s)) =
    BoidVelocity.predator (uniformVelocity s).
Proof.
  revert s. induction nows as [|now nows IH]; intros s Hm Hh; [reflexivity|].
  assert (Hout : ~ (Math_abs (mouseX s) < halfX s * 10 /\
                    Math_abs (mouseY s) < halfY s * 10)).
  { intros [Hx _]. unfold Math_abs in Hx. rewrite Hm, Rabs_pos_eq in Hx; lra. }
  unfold frames. simpl. fold (frames nows (render now s)).
  rewrite IH; rewrite (render_out_of_range now s Hout); simpl;
    [reflexivity | exact Hm | exact Hh].
Qed.

Lemma moved_state :
  Scenario.moved =
    Sim (Options 32 JNull 20.0 30.0 20.0 0.3 500) (32 * 32) (1000 / 2) (800 / 2) 0
        (600 - 1000 / 2) (400 - 800 / 2)
        (BoidVelocity.Uniforms 1.0 0.0 20.0 30.0 20.0 0.3 (Vec3 0 0 0) 500).
Proof.
  assert (H : Scenario.moved =
    Sim (Options 32 JNull 20.0 30.0 20.0 0.3 500) (32 * 32) (1000 / 2) (800 / 2) 0
        (600 - 1000 / 2) (400 - 800 / 2)
        (BoidVelocity.Uniforms 1.0 0.0 20.0 30.0 20.0 0.3 (Vec3 0 0 0) (toFixed2 500)))
    by reflexivity.
  rewrite H, toFixed2_500. reflexivity.
Qed.

Lemma frame1_state :
  Scenario.frame1 =
    Sim (Options 32 JNull 20.0 30.0 20.0 0.3 500) (32 * 32) (1000 / 2) (800 / 2) 16
        10000 10000
        (BoidVelocity.Uniforms 16 0.016 20.0 30.0 20.0 0.3 (Vec3 0.1 0 0) 500).
Proof.
  unfold Scenario.frame1. rewrite render_in_range; rewrite moved_state; simpl.
  - unfold frame_delta; simpl.
    destruct (Rgt_dec ((16 - 0) / 1000) 1) as [H|_]; [exfalso; lra|].
    unfold set_predator, set_time; simpl. do 2 f_equal; [lra|].
    apply vec3_eq; simpl; lra.
  - unfold Math_abs. apply Rabs_def1; lra.
  - unfold Math_abs. apply Rabs_def1; lra.
Qed.

Lemma frame2_state :
  Scenario.frame2 =
    Sim (Options 32 JNull 20.0 30.0 20.0 0.3 500) (32 * 32) (1000 / 2) (800 / 2) 32
        10000 10000
        (BoidVelocity.Uniforms 32 0.016 20.0 30.0 20.0 0.3 (Vec3 0.1 0 0) 500).
Proof.
  unfold Scenario.frame2. rewrite render_out_of_range; rewrite frame1_state; simpl.
  - unfold frame_delta; simpl.
    destruct (Rgt_dec ((32 - 16) / 1000) 1) as [H|_]; [exfalso; lra|].
    unfold set_time; simpl. do 2 f_equal. lra.
  - intros [H _]. unfold Math_abs in H. rewrite Rabs_pos_eq in H; lra.
Qed.

End Pointer.

(** C2, at a failing input: a window of 1000 by 800 pixels, one mouse move
    to [(600, 400)], then frames with no further event.  The first frame
    takes the sample as the predator, [(0.1, 0, 0)], and moves the pointer
    to [(10000, 10000)]; every later frame finds the pointer out of range
    and leaves the uniform at the sample.  So in the second frame the
    predator step is not skipped: a bird ten units from [(50, 0)] in the
    plane has 0.1024 added to its velocity along x and its limit raised to
    15. *)
Theorem pointer_sample_persists :
  BoidVelocity.predator (Starlings.uniformVelocity Scenario.frame1) = Vec3 0.1 0 0 /\
  Starlings.mouseX Scenario.frame1 = 10000 /\
  Starlings.mouseY Scenario.frame1 = 10000 /\
  BoidVelocity.predator (Starlings.uniformVelocity Scenario.frame2) = Vec3 0.1 0 0 /\
  (forall nows,
     BoidVelocity.predator
       (Starlings.uniformVelocity (Starlings.frames nows Scenario.frame1)) = Vec3 0.1 0 0) /\
  (forall velocity,
     BoidVelocity.predator_step (Starlings.uniformVelocity Scenario.frame2)
       (BoidVelocity.position Scenario.near_pointer) velocity BoidVelocity.SPEED_LIMIT =
     Some ((velocity + Vec3 1 0 0 * 0.1024)%vec, 15)).
Proof.
  repeat split.
  - rewrite frame1_state. reflexivity.
  - rewrite frame1_state. reflexivity.
  - rewrite frame1_state. reflexivity.
  - rewrite frame2_state. reflexivity.
  - intros nows. rewrite frames_keep_predator; rewrite frame1_state; simpl;
      [reflexivity | reflexivity | lra].
  - intros velocity. rewrite frame2_state. simpl Starlings.uniformVelocity.
    set (u := BoidVelocity.Uniforms _ _ _ _ _ _ _ _).
    assert (Hdir : BoidVelocity.predator_dir u
                     (BoidVelocity.position Scenario.near_pointer) = Vec3 10 0 0)
      by (apply vec3_eq; simpl; lra).
    rewrite predator_step_near; rewrite Hdir, length_x_pos by lra; [|lra].
    rewrite normalize_x_pos by lra. simpl.
    unfold BoidVelocity.SPEED_LIMIT. do 2 f_equal; [|lra].
    do 2 f_equal. lra.
Qed.

(** ** The number of birds *)

Section BirdCount.

Import Starlings.

Lemma Int_part_IZR (n : Z) : Int_part (IZR n) = n.
Proof. symmetry. apply Int_part_spec. lra. Qed.

Lemma Math_floor_spec (a : R) : Math_floor a <= a < Math_floor a + 1.
Proof. unfold Math_floor. pose proof (base_Int_part a). lra. Qed.

(** [Math.ceil] yields the least integer that is not below its argument. *)
Lemma Math_ceil_spec (a : R) :
  exists c : Z, Math_ceil a = IZR c /\ IZR c - 1 < a <= IZR c.
Proof.
  exists (- Int_part (- a))%Z. unfold Math_ceil.
  pose proof (Math_floor_spec (- a)) as H. unfold Math_floor in *.
  rewrite opp_IZR. split; [reflexivity|lra].
Qed.

Lemma Number_isInteger_IZR (n : Z) : Number_isInteger (JNumber (IZR n)) = true.
Proof.
  simpl. apply bool_decide_eq_true_2. unfold Math_floor.
  rewrite Int_part_IZR. reflexivity.
Qed.

Lemma positive_integer_inv (v : jsval) :
  Number_isInteger v && gt_zero v = true ->
  exists n : Z, (0 < n)%Z /\ v = JNumber (IZR n).
Proof.
  intros H. apply andb_true_iff in H as [Hint Hpos].
  destruct v as [|a]; [discriminate|]. simpl in Hint, Hpos.
  apply bool_decide_eq_true_1 in Hint. apply bool_decide_eq_true_1 in Hpos.
  exists (Int_part a). unfold Math_floor in Hint. split.
  - apply lt_IZR. rewrite <- Hint. lra.
  - rewrite <- Hint. reflexivity.
Qed.

Lemma positive_integer_test (n : Z) :
  (0 < n)%Z ->
  Number_isInteger (JNumber (IZR n)) && gt_zero (JNumber (IZR n)) = true.
Proof.
  intros Hn. rewrite Number_isInteger_IZR. simpl.
  apply bool_decide_eq_true_2. apply IZR_lt in Hn. lra.
Qed.

(** [Math.ceil(Math.sqrt(n))] is the side of the smallest square grid that
    holds [n] birds. *)
Lemma ceil_sqrt_spec (n : Z) :
  (0 < n)%Z ->
  exists r : Z, Math_ceil (Math_sqrt (IZR n)) = IZR r /\
    (0 < r)%Z /\ ((r - 1) * (r - 1) < n <= r * r)%Z.
Proof.
  intros Hn. apply IZR_lt in Hn.
  destruct (Math_ceil_spec (Math_sqrt (IZR n))) as (r & Hr & Hlo & Hhi).
  unfold Math_sqrt in *.
  assert (Hs : 0 < sqrt (IZR n)) by (apply sqrt_lt_R0; lra).
  assert (Hsq : sqrt (IZR n) * sqrt (IZR n) = IZR n) by (apply sqrt_sqrt; lra).
  assert (Hr0 : (0 < r)%Z) by (apply lt_IZR; lra).
  exists r. split; [exact Hr|]. split; [exact Hr0|]. split.
  - apply lt_IZR. rewrite mult_IZR, minus_IZR.
    assert (H1 : 1 <= IZR r) by (apply IZR_le; lia).
    nra.
  - apply le_IZR. rewrite mult_IZR. nra.
Qed.

End BirdCount.

(** C9.  The resolution defaults to 32.  If [options.birds] is a positive
    integer [n], the simulation has [n] birds and the resolution becomes
    [Math.ceil(Math.sqrt(n))], the least [r] with [n <= r * r]; otherwise the
    options stay as they are and the simulation has resolution times
    resolution birds. *)
Theorem agent_count (opts : Starlings.user_options) (width height now : R) :
  let o := Starlings.constructor opts in
  let s := Starlings.runSimulation o width height now in
  (Starlings.user_resolution opts = None -> Starlings.resolution o = 32) /\
  (forall n : Z, (0 < n)%Z -> Starlings.birds o = Starlings.JNumber (IZR n) ->
     Starlings.birdsCount s = IZR n /\
     Starlings.resolution (Starlings.sim_options s) =
       Starlings.Math_ceil (Starlings.Math_sqrt (IZR n)) /\
     exists r : Z, Starlings.resolution (Starlings.sim_options s) = IZR r /\
       (0 < r)%Z /\ ((r - 1) * (r - 1) < n <= r * r)%Z) /\
  ((forall n : Z, (0 < n)%Z -> Starlings.birds o <> Starlings.JNumber (IZR n)) ->
     Starlings.birdsCount s = Starlings.resolution o * Starlings.resolution o /\
     Starlings.sim_options s = o).
Proof.
  intros o s. split; [|split].
  - intros H. unfold o, Starlings.constructor, Starlings.Object_assign. simpl.
    rewrite H. reflexivity.
  - intros n Hn Hb.
    assert (Hs : Starlings.bird_count o =
      (Starlings.Options (Starlings.Math_ceil (Starlings.Math_sqrt (IZR n)))
         (Starlings.birds o) (Starlings.separation o) (Starlings.alignment o)
         (Starlings.cohesion o) (Starlings.freedom o) (Starlings.bounds o), IZR n)).
    { unfold Starlings.bird_count. rewrite Hb, positive_integer_test by exact Hn.
      reflexivity. }
    unfold s, Starlings.runSimulation. rewrite Hs. simpl.
    split; [reflexivity|]. split; [reflexivity|].
    apply ceil_sqrt_spec, Hn.
  - intros Hnot.
    assert (Hs : Starlings.bird_count o =
                 (o, Starlings.resolution o * Starlings.resolution o)).
    { unfold Starlings.bird_count.
      destruct (Starlings.Number_isInteger (Starlings.birds o)
                && Starlings.gt_zero (Starlings.birds o)) eqn:Htest; [|reflexivity].
      apply positive_integer_inv in Htest as (n & Hn & Hb).
      exfalso. apply (Hnot n Hn Hb). }
    unfold s, Starlings.runSimulation. rewrite Hs. simpl. split; reflexivity.
Qed.

Lemma agent_count_witness :
  Starlings.birdsCount
    (Starlings.runSimulation (Starlings.constructor Scenario.thousand_birds) 1000 800 0)
    = 1000 /\
  Starlings.resolution (Starlings.sim_options
    (Starlings.runSimulation (Starlings.constructor Scenario.thousand_birds) 1000 800 0))
    = 32.
Proof.
  destruct (proj1 (proj2 (agent_count Scenario.thousand_birds 1000 800 0)) 1000%Z)
    as (Hcount & _ & r & Hr & Hr0 & Hlo & Hhi).
  - lia.
  - reflexivity.
  - split; [exact Hcount|]. rewrite Hr. f_equal. nia.
Defined.

(** ** The initial textures *)

Section Fill.

Import Starlings.

Variable component : R -> R.
Variable random : nat -> R.

(** What the loop leaves at index [j]: below [i] the array is as before;
    from [i] on every fourth cell holds 1 and the three before it hold the
    component of one call of [Math.random()] each, in the order of the
    calls and rounded to single precision. *)
Lemma fill_from_lookup (i k : nat) (data : list R) (j : nat) :
  (fill_from component random i k data).1 !! j =
    if decide (j < i)%nat then data !! j
    else if decide (j < length data)%nat then
      Some (Float32.fround
              (if decide ((j - i) mod 4 = 3)%nat then 1
               else component (random (k + 3 * ((j - i) / 4) + (j - i) mod 4)%nat)))
    else None.
Proof.
  funelim (fill_from component random i k data).
  - rewrite H. clear H Heqcall. unfold store. rewrite !length_insert.
    destruct (decide (j < i + 4)%nat) as [Hj4|Hj4].
    + destruct (decide (j < i)%nat) as [Hji|Hji].
      * rewrite !list_lookup_insert_ne by lia. reflexivity.
      * destruct (decide (j < length data)%nat) as [Hjl|Hjl].
        -- assert (Hcase : (j = i \/ j = i + 1 \/ j = i + 2 \/ j = i + 3)%nat) by lia.
           destruct Hcase as [-> | [-> | [-> | ->]]].
           ++ rewrite !list_lookup_insert_ne by lia.
              rewrite list_lookup_insert_eq by lia.
              replace (i - i)%nat with 0%nat by lia. simpl.
              do 4 f_equal. lia.
           ++ rewrite !(list_lookup_insert_ne _ _ (i + 1)) by lia.
              rewrite list_lookup_insert_eq by (rewrite length_insert; lia).
              replace (i + 1 - i)%nat with 1%nat by lia. simpl.
              do 4 f_equal. lia.
           ++ rewrite !(list_lookup_insert_ne _ _ (i + 2)) by lia.
              rewrite list_lookup_insert_eq by (rewrite !length_insert; lia).
              replace (i + 2 - i)%nat with 2%nat by lia. simpl.
              do 4 f_equal. lia.
           ++ rewrite list_lookup_insert_eq by (rewrite !length_insert; lia).
              replace (i + 3 - i)%nat with 3%nat by lia. reflexivity.
        -- apply lookup_ge_None_2. rewrite !length_insert. lia.
    + destruct (decide (j < i)%nat) as [Hji|Hji]; [lia|].
      destruct (decide (j < length data)%nat) as [Hjl|Hjl]; [|reflexivity].
      assert (Hmod : ((j - (i + 4)) mod 4 = (j - i) mod 4)%nat).
      { replace (j - i)%nat with (j - (i + 4) + 1 * 4)%nat by lia.
        rewrite Nat.Div0.mod_add. reflexivity. }
      assert (Hdiv : ((j - i) / 4 = (j - (i + 4)) / 4 + 1)%nat).
      { replace (j - i)%nat with (j - (i + 4) + 1 * 4)%nat by lia.
        rewrite Nat.div_add by lia. reflexivity. }
      rewrite Hmod, Hdiv.
      destruct (decide ((j - i) mod 4 = 3)%nat); [reflexivity|].
      do 4 f_equal. lia.
  - simpl. destruct (decide (j < i)%nat) as [Hji|Hji]; [reflexivity|].
    destruct (decide (j < length data)%nat) as [Hjl|Hjl]; [lia|].
    apply lookup_ge_None_2. lia.
Qed.

(** The loop keeps the length of the array. *)
Lemma fill_from_length (i k : nat) (data : list R) :
  length (fill_from component random i k data).1 = length data.
Proof.
  funelim (fill_from component random i k data).
  - rewrite H. unfold store. rewrite !length_insert. reflexivity.
  - reflexivity.
Qed.

(** A cell of the filled array is 1 or the rounded component of some
    call. *)
Lemma fill_from_cell (k : nat) (data : list R) (j : nat) :
  (j < length data)%nat ->
  (j mod 4 = 3%nat /\ (fill_from component random 0 k data).1 !! j = Some 1) \/
  (j mod 4 <> 3%nat /\
   (fill_from component random 0 k data).1 !! j =
     Some (Float32.fround (component (random (k + 3 * (j / 4) + j mod 4)%nat)))).
Proof.
  intros Hj. rewrite fill_from_lookup.
  destruct (decide (j < 0)%nat); [lia|].
  destruct (decide (j < length data)%nat); [|lia].
  rewrite Nat.sub_0_r.
  destruct (decide (j mod 4 = 3)%nat); [left|right]; split; auto.
  rewrite fround_1. reflexivity.
Qed.

End Fill.




(** ** The scan adds up what the texels contribute *)

Section Additive.

Import BoidVelocity.

Implicit Types u : uniforms.
Implicit Types g : list bird.
Implicit Types v p d : vec3.

Lemma add_zero v : (v + Vec3 0 0 0)%vec = v.
Proof. apply vec3_eq; simpl; lra. Qed.

Lemma zero_add v : (Vec3 0 0 0 + v)%vec = v.
Proof. apply vec3_eq; simpl; lra. Qed.

Lemma add_assoc v d e : (v + d + e)%vec = (v + (d + e))%vec.
Proof. apply vec3_eq; simpl; lra. Qed.

Lemma add_swap v d e : (v + d + e)%vec = (v + e + d)%vec.
Proof. apply vec3_eq; simpl; lra. Qed.

Lemma sub_as_add v d : (v - d)%vec = (v + (Vec3 0 0 0 - d))%vec.
Proof. apply vec3_eq; simpl; lra. Qed.

(** What a texel does to the velocity is to add a vector that does not
    depend on the velocity. *)
Lemma neighbor_additive u p v b :
  neighbor u p v b = (d ← neighbor u p (Vec3 0 0 0) b; Some (v + d)%vec).
Proof.
  unfold neighbor.
  destruct (Rlt_dec _ 0.0001); [simpl; rewrite add_zero; reflexivity|].
  destruct (Rgt_dec _ _); [simpl; rewrite add_zero; reflexivity|].
  destruct (GLSL.fdiv _ (zoneRadiusSquared u)) as [percent|]; [|reflexivity].
  cbn [mbind option_bind].
  destruct (separationThresh u) as [sepT|]; [|reflexivity].
  cbn [mbind option_bind].
  destruct (Rlt_dec percent sepT).
  - unfold separation_rule.
    destruct (separation_weight u percent sepT) as [f|]; [|reflexivity].
    cbn [mbind option_bind].
    destruct (GLSL.normalize _) as [n'|]; [|reflexivity].
    cbn [mbind option_bind]. f_equal. apply vec3_eq; simpl; lra.
  - destruct (alignmentThresh u) as [alignT|]; [|reflexivity].
    cbn [mbind option_bind].
    destruct (Rlt_dec percent alignT).
    + unfold alignment_rule. cbv zeta.
      destruct (GLSL.fdiv _ _) as [t|]; [|reflexivity].
      cbn [mbind option_bind].
      destruct (GLSL.normalize _) as [n'|]; [|reflexivity].
      cbn [mbind option_bind]. f_equal. apply vec3_eq; simpl; lra.
    + unfold cohesion_rule. cbv zeta.
      destruct (GLSL.fdiv _ _) as [t|]; [|reflexivity].
      cbn [mbind option_bind].
      destruct (GLSL.normalize _) as [n'|]; [|reflexivity].
      cbn [mbind option_bind]. f_equal. apply vec3_eq; simpl; lra.
Qed.

Lemma scan_cons u p b g v :
  scan u p (b :: g) v = (w ← neighbor u p v b; scan u p g w).
Proof. reflexivity. Qed.

Lemma scan_additive u p g v :
  scan u p g v = (d ← scan u p g (Vec3 0 0 0); Some (v + d)%vec).
Proof.
  revert v. induction g as [|b g IH]; intros v.
  - simpl. rewrite add_zero. reflexivity.
  - rewrite !scan_cons, (neighbor_additive u p v b).
    destruct (neighbor u p (Vec3 0 0 0) b) as [d|]; [|reflexivity].
    cbn [mbind option_bind].
    rewrite (IH (v + d)%vec), (IH d).
    destruct (scan u p g (Vec3 0 0 0)) as [e|]; [|reflexivity].
    cbn [mbind option_bind]. rewrite add_assoc. reflexivity.
Qed.

(** Two texels can be visited in either order. *)
Lemma neighbor_swap u p v b c :
  (w ← neighbor u p v b; neighbor u p w c) = (w ← neighbor u p v c; neighbor u p w b).
Proof.
  rewrite (neighbor_additive u p v b), (neighbor_additive u p v c).
  destruct (neighbor u p (Vec3 0 0 0) b) as [d|] eqn:Hb;
    destruct (neighbor u p (Vec3 0 0 0) c) as [e|] eqn:Hc;
    cbn [mbind option_bind].
  - rewrite (neighbor_additive u p (v + d)), (neighbor_additive u p (v + e)), Hb, Hc.
    cbn [mbind option_bind]. rewrite add_swap. reflexivity.
  - rewrite (neighbor_additive u p (v + d)), Hc. reflexivity.
  - rewrite (neighbor_additive u p (v + e)), Hb. reflexivity.
  - reflexivity.
Qed.

Lemma scan_app u p g g' v :
  scan u p (g ++ g') v = (w ← scan u p g v; scan u p g' w).
Proof.
  revert v. induction g as [|b g IH]; intros v; [reflexivity|].
  rewrite <- app_comm_cons, !scan_cons.
  destruct (neighbor u p v b) as [w|]; [|reflexivity].
  cbn [mbind option_bind]. apply IH.
Qed.

End Additive.

(** X1.  The result of the scan, and so the velocity that [main] writes,
    does not depend on the order in which the texels are visited. *)
Theorem scan_permutation (u : BoidVelocity.uniforms) (g g' : list BoidVelocity.bird)
    (self : BoidVelocity.bird) :
  Permutation g g' ->
  (forall p v, BoidVelocity.scan u p g v = BoidVelocity.scan u p g' v) /\
  BoidVelocity.main u g self = BoidVelocity.main u g' self.
Proof.
  intros Hperm.
  assert (Hscan : forall p v, BoidVelocity.scan u p g v = BoidVelocity.scan u p g' v).
  { intros p. induction Hperm as [|b g g' _ IH|b c g|g g' g'' _ IH1 _ IH2]; intros v.
    - reflexivity.
    - rewrite !scan_cons.
      destruct (BoidVelocity.neighbor u p v b); [apply IH|reflexivity].
    - rewrite !scan_cons.
      pose proof (neighbor_swap u p v c b) as Hswap.
      destruct (BoidVelocity.neighbor u p v c) as [w|];
        destruct (BoidVelocity.neighbor u p v b) as [w'|];
        cbn [mbind option_bind] in *; rewrite ?scan_cons.
      + rewrite Hswap. reflexivity.
      + rewrite Hswap. reflexivity.
      + rewrite <- Hswap. reflexivity.
      + reflexivity.
    - rewrite IH1. apply IH2. }
  split; [exact Hscan|].
  unfold BoidVelocity.main, BoidVelocity.update.
  destruct (BoidVelocity.predator_step _ _ _ _) as [[v1 l1]|]; [|reflexivity].
  cbn [mbind option_bind].
  destruct (BoidVelocity.center_step _ _ _) as [v2|]; [|reflexivity].
  cbn [mbind option_bind]. rewrite Hscan. reflexivity.
Qed.

Lemma scan_permutation_witness :
  BoidVelocity.main (Scenario.uniforms Scenario.far) [Scenario.B; Scenario.A] Scenario.B
  = Some (Vec3 0.112 0 0).
Proof.
  rewrite <- scenario_main_B with (p := Scenario.far)
    by (rewrite scenario_far_B; lra).
  apply (scan_permutation (Scenario.uniforms Scenario.far)
           [Scenario.B; Scenario.A] [Scenario.A; Scenario.B] Scenario.B).
  apply perm_swap.
Defined.

(** ** Direction and size of the three forces *)

Section Forces.

Import BoidVelocity.

Implicit Types u : uniforms.
Implicit Types g : list bird.
Implicit Types v p n dir : vec3.

Lemma normalize_dot dir n :
  GLSL.normalize dir = Some n -> GLSL.dot n dir = GLSL.length dir.
Proof.
  intros H. apply normalize_inv in H as [Hpos ->].
  replace (GLSL.dot (dir * / GLSL.length dir) dir)
    with (GLSL.dot dir dir * / GLSL.length dir)
    by (unfold GLSL.dot, GLSL.scale; simpl; ring).
  rewrite <- length_sqr. field. lra.
Qed.

(** Adding [n * f], for [n] the normalized [dir], moves the velocity by
    [|f|], and by [f] times the length of [dir] along [dir]. *)
Lemma push_along dir n v (f : R) :
  GLSL.normalize dir = Some n ->
  GLSL.length (v + n * f - v) = Rabs f /\
  GLSL.dot (v + n * f - v) dir = f * GLSL.length dir.
Proof.
  intros Hn.
  replace (v + n * f - v)%vec with (n * f)%vec by (apply vec3_eq; simpl; lra).
  split.
  - rewrite length_scale, (normalize_unit _ _ Hn). lra.
  - rewrite <- (normalize_dot _ _ Hn). unfold GLSL.dot, GLSL.scale; simpl. ring.
Qed.

Lemma sub_scale v n (f : R) : (v - n * f)%vec = (v + n * (- f))%vec.
Proof. apply vec3_eq; simpl; lra. Qed.

(** The facts about a texel that the scan does not skip, for distances
    that are not negative and a cohesion distance above zero. *)
Lemma zone_facts u (d : R) :
  0 <= separation_distance u -> 0 <= alignment_distance u -> 0 < cohesion_distance u ->
  ~ d < 0.0001 -> ~ d * d > zoneRadiusSquared u ->
  let percent := d * d / zoneRadiusSquared u in
  let sepT := separation_distance u / zoneRadius u in
  let alignT := (separation_distance u + alignment_distance u) / zoneRadius u in
  0 < zoneRadius u /\ 0 < percent <= 1 /\ 0 <= sepT <= alignT /\ alignT < 1.
Proof.
  intros Hs Ha Hc Hd Hz percent sepT alignT.
  assert (HZ : 0 < zoneRadius u) by (unfold zoneRadius; lra).
  assert (HZZ : 0 < zoneRadiusSquared u) by (unfold zoneRadiusSquared; nra).
  assert (Hinv : 0 < / zoneRadius u) by (apply Rinv_0_lt_compat, HZ).
  assert (Hinv2 : 0 < / zoneRadiusSquared u) by (apply Rinv_0_lt_compat, HZZ).
  split; [exact HZ|]. split; [|split].
  - unfold percent, Rdiv. split.
    + apply Rmult_lt_0_compat; [nra|exact Hinv2].
    + apply Rmult_le_reg_r with (zoneRadiusSquared u); [exact HZZ|].
      rewrite Rmult_assoc, Rinv_l by lra. lra.
  - unfold sepT, alignT, Rdiv. split.
    + apply Rmult_le_pos; lra.
    + apply Rmult_le_compat_r; lra.
  - unfold alignT. apply Rmult_lt_reg_r with (zoneRadius u); [exact HZ|].
    unfold Rdiv. rewrite Rmult_assoc, Rinv_l by lra. unfold zoneRadius. lra.
Qed.

(** In each zone, what the rule needs to have a value. *)
Lemma zone_rules_defined u dir birdVelocity v (percent sepT alignT : R) :
  GLSL.length dir <> 0 -> 0 < percent -> alignT < 1 ->
  is_Some (separation_rule u dir v percent sepT) /\
  (percent < alignT -> sepT <= percent ->
     alignment_rule u birdVelocity v percent sepT alignT =
       (n ← GLSL.normalize birdVelocity;
        Some (v + n * alignment_weight u ((percent - sepT) / (alignT - sepT)))%vec)) /\
  is_Some (cohesion_rule u dir v percent alignT).
Proof.
  intros Hdir Hp Ha. split; [|split].
  - unfold separation_rule, separation_weight.
    rewrite fdiv_Some by lra. cbn [mbind option_bind].
    rewrite normalize_Some by exact Hdir. cbn [mbind option_bind]. eauto.
  - intros Hlt Hge. unfold alignment_rule. cbv zeta.
    rewrite fdiv_Some by lra. reflexivity.
  - unfold cohesion_rule. cbv zeta.
    rewrite fdiv_Some by lra. cbn [mbind option_bind].
    rewrite normalize_Some by exact Hdir. cbn [mbind option_bind]. eauto.
Qed.

(** With a time step of zero no step changes the velocity. *)
Lemma predator_step_paused u p v (limit : R) w (limit' : R) :
  del_change u = 0 -> predator_step u p v limit = Some (w, limit') -> w = v.
Proof.
  intros Hdt. unfold predator_step.
  destruct (Rlt_dec _ preyRadius); [|intros [= <- _]; reflexivity].
  destruct (GLSL.normalize _) as [n|]; [|discriminate].
  cbn [mbind option_bind]. intros [= <- _]. rewrite Hdt.
  apply vec3_eq; simpl; lra.
Qed.

Lemma center_step_paused u p v w :
  del_change u = 0 -> center_step u p v = Some w -> w = v.
Proof.
  intros Hdt. unfold center_step. cbv zeta.
  destruct (GLSL.normalize _) as [n|]; [|discriminate].
  cbn [mbind option_bind]. intros [= <-]. rewrite Hdt.
  apply vec3_eq; simpl; lra.
Qed.

Lemma neighbor_paused u p v b w :
  del_change u = 0 -> neighbor u p v b = Some w -> w = v.
Proof.
  intros Hdt. unfold neighbor.
  destruct (Rlt_dec _ 0.0001); [intros [= <-]; reflexivity|].
  destruct (Rgt_dec _ _); [intros [= <-]; reflexivity|].
  destruct (GLSL.fdiv _ (zoneRadiusSquared u)) as [percent|]; [|discriminate].
  cbn [mbind option_bind].
  destruct (separationThresh u) as [sepT|]; [|discriminate].
  cbn [mbind option_bind].
  destruct (Rlt_dec percent sepT).
  - unfold separation_rule, separation_weight.
    destruct (GLSL.fdiv sepT percent) as [q|]; [|discriminate].
    cbn [mbind option_bind].
    destruct (GLSL.normalize _) as [n'|]; [|discriminate].
    cbn [mbind option_bind]. intros [= <-]. rewrite Hdt.
    apply vec3_eq; simpl; lra.
  - destruct (alignmentThresh u) as [alignT|]; [|discriminate].
    cbn [mbind option_bind].
    destruct (Rlt_dec percent alignT).
    + unfold alignment_rule, alignment_weight. cbv zeta.
      destruct (GLSL.fdiv _ _) as [t|]; [|discriminate].
      cbn [mbind option_bind].
      destruct (GLSL.normalize _) as [n'|]; [|discriminate].
      cbn [mbind option_bind]. intros [= <-]. rewrite Hdt.
      apply vec3_eq; simpl; lra.
    + unfold cohesion_rule, cohesion_weight. cbv zeta.
      destruct (GLSL.fdiv _ _) as [t|]; [|discriminate].
      cbn [mbind option_bind].
      destruct (GLSL.normalize _) as [n'|]; [|discriminate].
      cbn [mbind option_bind]. intros [= <-]. rewrite Hdt.
      apply vec3_eq; simpl; lra.
Qed.

Lemma scan_paused u p g v w :
  del_change u = 0 -> scan u p g v = Some w -> w = v.
Proof.
  intros Hdt. revert v. induction g as [|b g IH]; intros v.
  - intros [= <-]. reflexivity.
  - rewrite scan_cons.
    destruct (neighbor u p v b) as [v'|] eqn:Hn; [|discriminate].
    cbn [mbind option_bind]. intros Hs.
    apply IH in Hs. apply (neighbor_paused _ _ _ _ _ Hdt) in Hn. congruence.
Qed.

End Forces.

(** X2.  For zone distances that are not negative and a cohesion distance
    above zero, the contribution of a texel has no value in one case only:
    the texel lies in the alignment zone and its velocity is the zero
    vector, which [normalize] cannot handle. *)
Theorem neighbor_undefined_iff (u : BoidVelocity.uniforms) (p v : vec3)
    (b : BoidVelocity.bird) :
  0 <= BoidVelocity.separation_distance u ->
  0 <= BoidVelocity.alignment_distance u ->
  0 < BoidVelocity.cohesion_distance u ->
  let d := GLSL.length (BoidVelocity.position b - p) in
  let Z := BoidVelocity.zoneRadius u in
  let percent := d * d / (Z * Z) in
  BoidVelocity.neighbor u p v b = None <->
  (~ d < 0.0001 /\ ~ d * d > Z * Z /\
   BoidVelocity.separation_distance u / Z <= percent
     < (BoidVelocity.separation_distance u + BoidVelocity.alignment_distance u) / Z /\
   BoidVelocity.velocity b = Vec3 0 0 0).
Proof.
  intros Hs Ha Hc d Z percent.
  set (sepT := BoidVelocity.separation_distance u / Z).
  set (alignT :=
         (BoidVelocity.separation_distance u + BoidVelocity.alignment_distance u) / Z).
  assert (Hzone : ~ d < 0.0001 -> ~ d * d > Z * Z ->
    BoidVelocity.neighbor u p v b =
      if Rlt_dec percent sepT then
        BoidVelocity.separation_rule u (BoidVelocity.position b - p) v percent sepT
      else if Rlt_dec percent alignT then
        BoidVelocity.alignment_rule u (BoidVelocity.velocity b) v percent sepT alignT
      else BoidVelocity.cohesion_rule u (BoidVelocity.position b - p) v percent alignT).
  { intros Hd Hz. apply (neighbor_in_zone u p v b Hd Hz). }
  assert (Hrules : ~ d < 0.0001 -> ~ d * d > Z * Z ->
    0 <= sepT <= alignT /\
    is_Some (BoidVelocity.separation_rule u (BoidVelocity.position b - p) v percent sepT) /\
    (percent < alignT -> sepT <= percent ->
       BoidVelocity.alignment_rule u (BoidVelocity.velocity b) v percent sepT alignT =
         (n ← GLSL.normalize (BoidVelocity.velocity b);
          Some (v + n * BoidVelocity.alignment_weight u
                          ((percent - sepT) / (alignT - sepT)))%vec)) /\
    is_Some (BoidVelocity.cohesion_rule u (BoidVelocity.position b - p) v percent alignT)).
  { intros Hd Hz.
    destruct (zone_facts u d Hs Ha Hc Hd Hz) as (_ & [Hp0 _] & Hst & Ha1).
    split; [exact Hst|].
    apply zone_rules_defined; [fold d; lra | exact Hp0 | exact Ha1]. }
  split.
  - intros Hnone.
    destruct (Rlt_dec d 0.0001) as [Hd|Hd];
      [rewrite neighbor_skip in Hnone by (left; exact Hd); discriminate|].
    destruct (Rgt_dec (d * d) (Z * Z)) as [Hz|Hz];
      [rewrite neighbor_skip in Hnone by (right; exact Hz); discriminate|].
    destruct (Hrules Hd Hz) as (_ & Hsep & Halign & Hcoh).
    rewrite (Hzone Hd Hz) in Hnone.
    destruct (Rlt_dec percent sepT) as [Hlt|Hge].
    { rewrite Hnone in Hsep. destruct Hsep; discriminate. }
    destruct (Rlt_dec percent alignT) as [Hlt|Hge'].
    + rewrite Halign in Hnone by lra.
      destruct (GLSL.normalize (BoidVelocity.velocity b)) eqn:Hn; [discriminate|].
      apply normalize_None_iff in Hn.
      repeat split; try assumption; lra.
    + rewrite Hnone in Hcoh. destruct Hcoh; discriminate.
  - intros (Hd & Hz & [Hge Hlt] & Hv).
    destruct (Hrules Hd Hz) as (_ & _ & Halign & _).
    rewrite (Hzone Hd Hz).
    destruct (Rlt_dec percent sepT); [lra|].
    destruct (Rlt_dec percent alignT); [|lra].
    rewrite Halign by lra. rewrite Hv, normalize_zero. reflexivity.
Qed.

Lemma neighbor_undefined_iff_witness :
  BoidVelocity.neighbor (Scenario.uniforms Scenario.far) (Vec3 0 0 0) (Vec3 0 0 0)
    Flock.resting = None.
Proof.
  apply (neighbor_undefined_iff (Scenario.uniforms Scenario.far) (Vec3 0 0 0)
           (Vec3 0 0 0) Flock.resting); try (simpl; lra).
  assert (Hlen : GLSL.length (BoidVelocity.position Flock.resting - Vec3 0 0 0) = 40).
  { replace (BoidVelocity.position Flock.resting - Vec3 0 0 0)%vec with (Vec3 40 0 0)
      by (apply vec3_eq; simpl; lra).
    apply length_x_pos. lra. }
  rewrite Hlen. destruct (scenario_zone Scenario.far) as [-> _]. simpl.
  repeat split; lra.
Defined.

(** X3.  For zone distances that are not negative and a cohesion distance
    above zero, [main] writes a velocity for every bird that is not at the
    origin and not, in the plane, at the predator, provided that every
    texel away from the bird's own position has a velocity other than
    zero. *)
Theorem main_defined (u : BoidVelocity.uniforms) (g : list BoidVelocity.bird)
    (self : BoidVelocity.bird) :
  0 <= BoidVelocity.separation_distance u ->
  0 <= BoidVelocity.alignment_distance u ->
  0 < BoidVelocity.cohesion_distance u ->
  BoidVelocity.position self <> Vec3 0 0 0 ->
  BoidVelocity.predator_dir u (BoidVelocity.position self) <> Vec3 0 0 0 ->
  Forall (fun b => BoidVelocity.velocity b <> Vec3 0 0 0 \/
                   BoidVelocity.position b = BoidVelocity.position self) g ->
  is_Some (BoidVelocity.main u g self).
Proof.
  intros Hs Ha Hc Hp Hpred Hg.
  set (p := BoidVelocity.position self) in *.
  assert (Hscan : forall v, is_Some (BoidVelocity.scan u p g v)).
  { induction Hg as [|b g Hb _ IH]; intros v; [simpl; eauto|].
    rewrite scan_cons.
    assert (Hn : is_Some (BoidVelocity.neighbor u p v b)).
    { set (d := GLSL.length (BoidVelocity.position b - p)).
      destruct (Rlt_dec d 0.0001) as [Hd|Hd];
        [rewrite neighbor_skip by (left; exact Hd); eauto|].
      destruct (Rgt_dec (d * d) (BoidVelocity.zoneRadiusSquared u)) as [Hz|Hz];
        [rewrite neighbor_skip by (right; exact Hz); eauto|].
      destruct (zone_facts u d Hs Ha Hc Hd Hz) as (_ & [Hp0 _] & Hst & Ha1).
      rewrite (neighbor_in_zone u p v b Hd Hz). cbv zeta. fold d.
      edestruct (zone_rules_defined u (BoidVelocity.position b - p)
                   (BoidVelocity.velocity b) v) as (Hsep & Halign & Hcoh);
        [fold d; lra | exact Hp0 | exact Ha1 |].
      destruct (Rlt_dec _ _) as [Hlt|Hge]; [exact Hsep|].
      destruct (Rlt_dec _ _) as [Hlt|Hge']; [|exact Hcoh].
      rewrite Halign by lra.
      destruct Hb as [Hv|Hsame].
      - rewrite normalize_Some by (rewrite length_zero_iff; exact Hv).
        cbn [mbind option_bind]. eauto.
      - exfalso. apply Hd. unfold d. rewrite Hsame.
        replace (p - p)%vec with (Vec3 0 0 0) by (apply vec3_eq; simpl; lra).
        rewrite length_x_pos; lra. }
    destruct Hn as [w ->]. cbn [mbind option_bind]. apply IH. }
  unfold BoidVelocity.main, BoidVelocity.update. fold p.
  destruct (predator_step_defined u p (BoidVelocity.velocity self) Hpred)
    as (v1 & l1 & -> & Hl1).
  cbn [mbind option_bind].
  destruct (center_step_defined u p v1 Hp) as [v2 ->]. cbn [mbind option_bind].
  destruct (Hscan v2) as [v3 ->]. cbn [mbind option_bind].
  apply clamp_defined, Hl1.
Qed.

Lemma main_defined_witness :
  is_Some (BoidVelocity.main (Scenario.uniforms Scenario.far)
             [Flock.flying 10 0 0; Flock.flying 0 20 0; Scenario.B] Scenario.B).
Proof.
  apply main_defined; try (simpl; lra).
  - simpl. intros [= H]. lra.
  - unfold BoidVelocity.predator_dir. simpl. intros [= H]. lra.
  - constructor; [left; simpl; intros [= H]; lra|].
    constructor; [left; simpl; intros [= H]; lra|].
    constructor; [right; reflexivity|constructor].
Defined.

(** X4.  In the separation zone, with a time step above zero, the texel
    pushes the velocity straight away from itself: the velocity changes by
    [f = (sepThresh / percent - 1) * dt > 0] in length, against the
    direction [dir] from the bird to the texel. *)
Theorem separation_repels (u : BoidVelocity.uniforms) (p v : vec3)
    (b : BoidVelocity.bird) :
  0 <= BoidVelocity.separation_distance u ->
  0 <= BoidVelocity.alignment_distance u ->
  0 < BoidVelocity.cohesion_distance u ->
  0 < BoidVelocity.del_change u ->
  let dir := (BoidVelocity.position b - p)%vec in
  let d := GLSL.length dir in
  let Z := BoidVelocity.zoneRadius u in
  let percent := d * d / (Z * Z) in
  let sepThresh := BoidVelocity.separation_distance u / Z in
  let f := (sepThresh / percent - 1) * BoidVelocity.del_change u in
  ~ d < 0.0001 -> percent < sepThresh ->
  exists w, BoidVelocity.neighbor u p v b = Some w /\
    0 < f /\ GLSL.length (w - v) = f /\ GLSL.dot (w - v) dir = - f * d.
Proof.
  intros Hs Ha Hc Hdt dir d Z percent sepThresh f Hd Hlt.
  assert (HZ : 0 < Z) by (unfold Z, BoidVelocity.zoneRadius; lra).
  assert (HZZ : 0 < Z * Z) by nra.
  assert (Hs1 : sepThresh <= 1).
  { unfold sepThresh. apply Rmult_le_reg_r with Z; [exact HZ|].
    unfold Rdiv. rewrite Rmult_assoc, Rinv_l by lra.
    unfold Z, BoidVelocity.zoneRadius. lra. }
  assert (Hz : ~ d * d > BoidVelocity.zoneRadiusSquared u).
  { change (BoidVelocity.zoneRadiusSquared u) with (Z * Z).
    assert (Hdd : d * d = percent * (Z * Z)) by (unfold percent; field; lra).
    rewrite Hdd. nra. }
  destruct (zone_facts u d Hs Ha Hc Hd Hz) as (_ & [Hp0 _] & _ & _).
  change (BoidVelocity.zoneRadiusSquared u) with (Z * Z) in Hp0. fold percent in Hp0.
  assert (Hf : 0 < f).
  { unfold f. apply Rmult_lt_0_compat; [|exact Hdt].
    assert (1 < sepThresh / percent); [|lra].
    apply Rmult_lt_reg_r with percent; [exact Hp0|].
    unfold Rdiv. rewrite Rmult_assoc, Rinv_l by lra. lra. }
  rewrite (neighbor_in_zone u p v b Hd Hz). cbv zeta.
  fold dir d. change (BoidVelocity.zoneRadius u) with Z.
  change (BoidVelocity.zoneRadiusSquared u) with (Z * Z).
  fold percent sepThresh.
  destruct (Rlt_dec percent sepThresh) as [_|Hge]; [|contradiction].
  unfold BoidVelocity.separation_rule, BoidVelocity.separation_weight.
  rewrite fdiv_Some by lra. cbn [mbind option_bind].
  assert (Hn : GLSL.normalize dir = Some (dir * / d)%vec)
    by (apply normalize_Some; fold d; lra).
  rewrite Hn. cbn [mbind option_bind].
  replace ((sepThresh / percent - 1.0) * BoidVelocity.del_change u) with f
    by (unfold f; lra).
  eexists. split; [reflexivity|]. split; [exact Hf|].
  rewrite sub_scale.
  destruct (push_along dir _ v (- f) Hn) as [Hlen Hdot].
  rewrite Hlen, Hdot. fold d. split; [|reflexivity].
  rewrite Rabs_Ropp. apply Rabs_pos_eq. lra.
Qed.

Lemma separation_repels_witness :
  exists w,
    BoidVelocity.neighbor (Scenario.uniforms Scenario.far)
      (BoidVelocity.position Scenario.A) (Vec3 0 0 0) Scenario.B = Some w /\
    GLSL.dot (w - Vec3 0 0 0)
      (BoidVelocity.position Scenario.B - BoidVelocity.position Scenario.A) < 0.
Proof.
  assert (Hdir : (BoidVelocity.position Scenario.B - BoidVelocity.position Scenario.A)%vec
                 = Vec3 10 0 0) by (apply vec3_eq; simpl; lra).
  pose proof (length_x_pos 10 ltac:(lra)) as Hlen.
  destruct (scenario_zone Scenario.far) as [HZ _].
  destruct (separation_repels (Scenario.uniforms Scenario.far)
              (BoidVelocity.position Scenario.A) (Vec3 0 0 0) Scenario.B)
    as (w & Hw & Hf & _ & Hdot); try (simpl; lra).
  - rewrite Hdir, Hlen. lra.
  - rewrite Hdir, Hlen, HZ. simpl. lra.
  - exists w. split; [exact Hw|]. rewrite Hdot.
    rewrite Hdir, Hlen in *. nra.
Defined.

(** X5.  Within 50 units of the predator in the plane, and with a time step
    that is not negative, the predator step moves the velocity towards the
    predator: the velocity changes by [f = d * d / (50 * 50) * dt * 160], at
    most [160 * dt], in the direction [dir] of the predator. *)
Theorem predator_attracts (u : BoidVelocity.uniforms) (p v : vec3) (limit : R) :
  let dir := BoidVelocity.predator_dir u p in
  let d := GLSL.length dir in
  let f := d * d / (50 * 50) * BoidVelocity.del_change u * 160 in
  0 < d < 50 -> 0 <= BoidVelocity.del_change u ->
  exists w, BoidVelocity.predator_step u p v limit = Some (w, limit + 5) /\
    0 <= f <= 160 * BoidVelocity.del_change u /\
    GLSL.length (w - v) = f /\ GLSL.dot (w - v) dir = f * d /\ 0 <= f * d.
Proof.
  intros dir d f [Hd0 Hd50] Hdt.
  assert (Hn : GLSL.normalize dir = Some (dir * / d)%vec)
    by (apply normalize_Some; fold d; lra).
  assert (Hf : 0 <= f <= 160 * BoidVelocity.del_change u).
  { unfold f. assert (0 <= d * d / (50 * 50) <= 1) by (split; nra). nra. }
  rewrite predator_step_near by (fold dir d; lra). fold dir. rewrite Hn.
  cbn [mbind option_bind]. fold d. fold f.
  eexists. split; [reflexivity|]. split; [exact Hf|].
  destruct (push_along dir _ v f Hn) as [Hlen Hdot].
  rewrite Hlen, Hdot. fold d. repeat split; [apply Rabs_pos_eq; lra|nra].
Qed.

Lemma predator_attracts_witness :
  exists w,
    BoidVelocity.predator_step (Scenario.uniforms (Vec3 0 0 0))
      (BoidVelocity.position Scenario.B) (Vec3 0 0 0) 10 = Some (w, 10 + 5) /\
    GLSL.length (w - Vec3 0 0 0) <= 160 * 0.016.
Proof.
  assert (Hdir : BoidVelocity.predator_dir (Scenario.uniforms (Vec3 0 0 0))
                   (BoidVelocity.position Scenario.B) = Vec3 (-10) 0 0)
    by (apply vec3_eq; simpl; lra).
  assert (Hlen : GLSL.length (Vec3 (-10) 0 0) = 10)
    by (rewrite length_x_axis; rewrite Rabs_left; lra).
  destruct (predator_attracts (Scenario.uniforms (Vec3 0 0 0))
              (BoidVelocity.position Scenario.B) (Vec3 0 0 0) 10)
    as (w & Hw & Hf & Hl & _).
  - rewrite Hdir, Hlen. lra.
  - simpl. lra.
  - exists w. split; [exact Hw|]. rewrite Hl. apply Hf.
Defined.

(** X6.  For a bird that is not at the origin, the centre pull changes the
    velocity by exactly [6 * |dt|] in length, and for a time step above zero
    the change points into the half space of the origin. *)
Theorem center_pull_inward (u : BoidVelocity.uniforms) (p v : vec3) :
  p <> Vec3 0 0 0 ->
  exists w, BoidVelocity.center_step u p v = Some w /\
    GLSL.length (w - v) = 6 * Rabs (BoidVelocity.del_change u) /\
    (0 < BoidVelocity.del_change u -> GLSL.dot (w - v) p < 0).
Proof.
  intros Hp.
  set (dir := GLSL.set_y (p - Vec3 0 0 0) (GLSL.y (p - Vec3 0 0 0) * 2.5)).
  assert (Hdir : dir <> Vec3 0 0 0)
    by (intros H; apply Hp; apply center_dir_zero_iff; exact H).
  assert (HL : 0 < GLSL.length dir).
  { pose proof (length_nonneg dir). rewrite <- length_zero_iff in Hdir. lra. }
  assert (Hn : GLSL.normalize dir = Some (dir * / GLSL.length dir)%vec)
    by (apply normalize_Some; lra).
  unfold BoidVelocity.center_step. cbv zeta. fold dir. rewrite Hn.
  cbn [mbind option_bind]. eexists. split; [reflexivity|].
  set (n := (dir * / GLSL.length dir)%vec).
  replace (v - n * BoidVelocity.del_change u * 6 - v)%vec
    with (n * (- (6 * BoidVelocity.del_change u)))%vec
    by (apply vec3_eq; simpl; lra).
  split.
  - assert (Hunit : GLSL.length n = 1) by apply (normalize_unit _ _ Hn).
    rewrite length_scale, Hunit, Rabs_Ropp, Rabs_mult.
    rewrite (Rabs_pos_eq 6) by lra. lra.
  - intros Hdt.
    assert (Hpp : 0 < GLSL.dot p p).
    { pose proof (dot_self_nonneg p) as H0.
      destruct (Req_dec (GLSL.dot p p) 0) as [Hz|Hz]; [|lra].
      exfalso. apply Hp. apply length_zero_iff. unfold GLSL.length.
      rewrite Hz. apply sqrt_0. }
    assert (Hnp : 0 < GLSL.dot n p).
    { replace (GLSL.dot n p)
        with ((GLSL.x p * GLSL.x p + 2.5 * (GLSL.y p * GLSL.y p) + GLSL.z p * GLSL.z p)
              * / GLSL.length dir)
        by (unfold n, dir, GLSL.dot, GLSL.scale, GLSL.set_y, GLSL.sub; simpl; lra).
      apply Rmult_lt_0_compat; [|apply Rinv_0_lt_compat, HL].
      unfold GLSL.dot in Hpp. nra. }
    replace (GLSL.dot (n * - (6 * BoidVelocity.del_change u)) p)
      with (- (6 * BoidVelocity.del_change u) * GLSL.dot n p)
      by (unfold GLSL.dot, GLSL.scale; simpl; ring).
    nra.
Qed.

Lemma center_pull_inward_witness :
  exists w,
    BoidVelocity.center_step (Scenario.uniforms Scenario.far)
      (BoidVelocity.position Scenario.B) (Vec3 0 0 0) = Some w /\
    GLSL.dot (w - Vec3 0 0 0) (BoidVelocity.position Scenario.B) < 0.
Proof.
  destruct (center_pull_inward (Scenario.uniforms Scenario.far)
              (BoidVelocity.position Scenario.B) (Vec3 0 0 0))
    as (w & Hw & _ & Hdot).
  - simpl. intros [= H]. lra.
  - exists w. split; [exact Hw|]. apply Hdot. simpl. lra.
Defined.

(** X7.  With a time step of zero, as in a second call of [render] at the
    same time, none of the three forces changes the velocity: what [main]
    writes is the clamp of the bird's own velocity, and that velocity itself
    if its length is at most 10. *)
Theorem zero_time_step (u : BoidVelocity.uniforms) (g : list BoidVelocity.bird)
    (self : BoidVelocity.bird) (v : vec3) :
  BoidVelocity.del_change u = 0 ->
  BoidVelocity.main u g self = Some v ->
  (exists limit,
     BoidVelocity.update u g self = Some (BoidVelocity.velocity self, limit) /\
     BoidVelocity.clamp (BoidVelocity.velocity self) limit = Some v) /\
  (GLSL.length (BoidVelocity.velocity self) <= 10 -> v = BoidVelocity.velocity self).
Proof.
  intros Hdt Hmain.
  destruct (main_inv _ _ _ _ Hmain) as (w & limit & Hupd & Hclamp).
  assert (Hw : w = BoidVelocity.velocity self).
  { revert Hupd. unfold BoidVelocity.update.
    destruct (BoidVelocity.predator_step _ _ _ _) as [[v1 l1]|] eqn:H1; [|discriminate].
    cbn [mbind option_bind].
    destruct (BoidVelocity.center_step _ _ _) as [v2|] eqn:H2; [|discriminate].
    cbn [mbind option_bind].
    destruct (BoidVelocity.scan _ _ _ _) as [v3|] eqn:H3; [|discriminate].
    cbn [mbind option_bind]. intros [= <- _].
    apply (predator_step_paused _ _ _ _ _ _ Hdt) in H1.
    apply (center_step_paused _ _ _ _ Hdt) in H2.
    apply (scan_paused _ _ _ _ _ Hdt) in H3. congruence. }
  subst w. split.
  - exists limit. split; assumption.
  - intros Hlen. pose proof (update_limit _ _ _ _ _ Hupd) as Hlim.
    assert (Hpos : 0 < limit /\ 10 <= limit)
      by (rewrite Hlim; destruct (Rlt_dec _ 50); lra).
    apply (clamp_spec _ _ _ (proj1 Hpos) Hclamp). lra.
Qed.

Lemma zero_time_step_witness :
  exists v, BoidVelocity.main Flock.paused [Scenario.B] Scenario.B = Some v /\
    v = BoidVelocity.velocity Scenario.B.
Proof.
  assert (Hdef : is_Some (BoidVelocity.main Flock.paused [Scenario.B] Scenario.B)).
  { unfold BoidVelocity.main, BoidVelocity.update.
    rewrite predator_step_far.
    - cbn [mbind option_bind].
      destruct (center_step_defined Flock.paused (BoidVelocity.position Scenario.B)
                  (BoidVelocity.velocity Scenario.B)) as [v2 ->];
        [simpl; intros [= H]; lra|].
      cbn [mbind option_bind]. unfold BoidVelocity.scan.
      rewrite neighbor_self. cbn [mbind option_bind].
      apply clamp_defined. unfold BoidVelocity.SPEED_LIMIT. lra.
    - replace (BoidVelocity.predator_dir Flock.paused (BoidVelocity.position Scenario.B))
        with (Vec3 490 0 0) by (apply vec3_eq; simpl; lra).
      rewrite length_x_pos; lra. }
  destruct Hdef as [v Hv]. exists v. split; [exact Hv|].
  apply (zero_time_step Flock.paused [Scenario.B] Scenario.B v); [reflexivity|exact Hv|].
  simpl. rewrite length_x_pos; lra.
Defined.

(** ** Frames and events *)

Section Events.

Import Starlings.

(** A sample that passes the test of [render] gives a predator within 5 of
    zero on each axis. *)
Lemma sample_bound (m h : R) :
  Math_abs m < h * 10 ->
  Rabs (0.5 * m / h) < 5 /\ Rabs (-0.5 * m / h) < 5.
Proof.
  unfold Math_abs. intros Hm.
  assert (Hh : 0 < h) by (pose proof (Rabs_pos m); lra).
  apply Rabs_def2 in Hm as [Hhi Hlo].
  set (q := m / h).
  assert (Hq : m = q * h) by (unfold q; field; lra).
  assert (Hq10 : -10 < q < 10) by (split; nra).
  replace (0.5 * m / h) with (0.5 * q) by (unfold q; field; lra).
  replace (-0.5 * m / h) with (-0.5 * q) by (unfold q; field; lra).
  split; apply Rabs_def1; lra.
Qed.

Lemma handle_kept (u0 : BoidVelocity.uniforms) (e : event) (s : sim) :
  kept u0 s -> kept u0 (handle e s).
Proof.
  intros Hk. destruct e as [cx cy|touches|touches|w h|now]; simpl.
  - exact Hk.
  - destruct touches as [|[px py] [|]]; exact Hk.
  - destruct touches as [|[px py] [|]]; exact Hk.
  - exact Hk.
  - destruct Hk as (Hx & Hy & Hz & Hrest).
    destruct (Rlt_dec (Math_abs (mouseX s)) (halfX s * 10)) as [Hmx|Hmx];
      [destruct (Rlt_dec (Math_abs (mouseY s)) (halfY s * 10)) as [Hmy|Hmy]|].
    + rewrite render_in_range by assumption. unfold kept. simpl.
      destruct (sample_bound _ _ Hmx) as [Hbx _].
      destruct (sample_bound _ _ Hmy) as [_ Hby].
      repeat split; try assumption; apply Hrest.
    + rewrite render_out_of_range by (intros [_ H]; contradiction).
      unfold kept. simpl. repeat split; try assumption; apply Hrest.
    + rewrite render_out_of_range by (intros [H _]; contradiction).
      unfold kept. simpl. repeat split; try assumption; apply Hrest.
Qed.

Lemma run_kept (u0 : BoidVelocity.uniforms) (events : list event) (s : sim) :
  kept u0 s -> kept u0 (run events s).
Proof.
  revert s. induction events as [|e events IH]; intros s Hk; [exact Hk|].
  apply IH, handle_kept, Hk.
Qed.

End Events.

(** X8.  Whatever the pointer does, a frame sets the clock and the last
    time to the time of the call and a time step of at most 1, which is not
    negative if time did not run backwards, and is the elapsed time in
    seconds while that is at most one second. *)
Theorem render_time_step (now : R) (s : Starlings.sim) :
  let u' := Starlings.uniformVelocity (Starlings.render now s) in
  Starlings.lastTime (Starlings.render now s) = now /\
  BoidVelocity.clock u' = now /\
  BoidVelocity.del_change u' <= 1 /\
  (Starlings.lastTime s <= now -> 0 <= BoidVelocity.del_change u') /\
  (now - Starlings.lastTime s <= 1000 ->
   BoidVelocity.del_change u' = (now - Starlings.lastTime s) / 1000) /\
  (now - Starlings.lastTime s > 1000 -> BoidVelocity.del_change u' = 1).
Proof.
  assert (Hdelta : Starlings.frame_delta now s <= 1 /\
    (Starlings.lastTime s <= now -> 0 <= Starlings.frame_delta now s) /\
    (now - Starlings.lastTime s <= 1000 ->
     Starlings.frame_delta now s = (now - Starlings.lastTime s) / 1000) /\
    (now - Starlings.lastTime s > 1000 -> Starlings.frame_delta now s = 1)).
  { unfold Starlings.frame_delta. cbv zeta.
    destruct (Rgt_dec ((now - Starlings.lastTime s) / 1000) 1) as [H|H];
      repeat split; intros; lra. }
  unfold Starlings.render. cbv zeta.
  destruct (bool_decide _ && bool_decide _); simpl;
    (split; [reflexivity|]); (split; [reflexivity|]); exact Hdelta.
Qed.

Lemma render_time_step_witness :
  BoidVelocity.del_change (Starlings.uniformVelocity (Starlings.render 5000 Scenario.moved))
  = 1.
Proof.
  apply (render_time_step 5000 Scenario.moved).
  rewrite moved_state. simpl. lra.
Defined.

(** X9.  From the start of the simulation on, through any sequence of
    pointer events, resizes and frames, the predator uniform has [z = 0] and
    [x] and [y] within 5 of zero, the zone distances that the shader reads
    are those of the options, and its bounds are those of the options
    rounded to two decimals by [toFixed(2)], at most 0.005 away. *)
Theorem predator_uniform_bounded (o : Starlings.options) (width height now : R)
    (events : list Starlings.event) :
  let s0 := Starlings.runSimulation o width height now in
  let u := Starlings.uniformVelocity (Starlings.run events s0) in
  Rabs (GLSL.x (BoidVelocity.predator u)) < 5 /\
  Rabs (GLSL.y (BoidVelocity.predator u)) < 5 /\
  GLSL.z (BoidVelocity.predator u) = 0 /\
  BoidVelocity.separation_distance u = Starlings.separation o /\
  BoidVelocity.alignment_distance u = Starlings.alignment o /\
  BoidVelocity.cohesion_distance u = Starlings.cohesion o /\
  BoidVelocity.bounds u = Starlings.toFixed2 (Starlings.bounds o) /\
  Rabs (BoidVelocity.bounds u - Starlings.bounds o) <= 1 / 200.
Proof.
  intros s0 u.
  assert (Hu0 : Starlings.uniformVelocity s0 =
                BoidVelocity.Uniforms 1.0 0.0 (Starlings.separation o)
                  (Starlings.alignment o) (Starlings.cohesion o) (Starlings.freedom o)
                  (Vec3 0 0 0) (Starlings.toFixed2 (Starlings.bounds o))).
  { unfold s0, Starlings.runSimulation, Starlings.bird_count.
    destruct (Starlings.Number_isInteger _ && Starlings.gt_zero _); reflexivity. }
  assert (Hk : Starlings.kept (Starlings.uniformVelocity s0) s0).
  { unfold Starlings.kept. rewrite Hu0. simpl. rewrite Rabs_R0. repeat split; lra. }
  apply (run_kept _ events) in Hk. unfold Starlings.kept in Hk. rewrite Hu0 in Hk.
  cbn [BoidVelocity.separation_distance BoidVelocity.alignment_distance
       BoidVelocity.cohesion_distance BoidVelocity.bounds] in Hk.
  destruct Hk as (Hx & Hy & Hz & Hs & Ha & Hc & Hb).
  fold u in Hx, Hy, Hz, Hs, Ha, Hc, Hb.
  repeat split; try assumption.
  rewrite Hb. apply toFixed2_near.
Qed.

Lemma predator_uniform_bounded_witness :
  BoidVelocity.bounds (Starlings.uniformVelocity
    (Starlings.run [Starlings.MouseMove 600 400; Starlings.AnimationFrame 16]
       (Starlings.runSimulation
          (Starlings.constructor
             (Starlings.UserOptions None None None None None None (Some 0.125)))
          1000 800 0)))
  = 0.13.
Proof.
  destruct (predator_uniform_bounded
              (Starlings.constructor
                 (Starlings.UserOptions None None None None None None (Some 0.125)))
              1000 800 0 [Starlings.MouseMove 600 400; Starlings.AnimationFrame 16])
    as (_ & _ & _ & _ & _ & _ & Hb & _).
  rewrite Hb. apply toFixed2_eighth.
Defined.

(** X10.  A mouse move to a point of the window, followed by a frame, sets
    the predator uniform to the point in units of the window, from [-0.5]
    to [0.5] on each axis with [y] pointing up, and moves the pointer out
    to [(10000, 10000)]. *)
Theorem pointer_in_window (now clientX clientY : R) (s : Starlings.sim) :
  0 < Starlings.halfX s -> 0 < Starlings.halfY s ->
  0 <= clientX <= 2 * Starlings.halfX s ->
  0 <= clientY <= 2 * Starlings.halfY s ->
  let s' := Starlings.render now (Starlings.onDocumentMouseMove clientX clientY s) in
  let pr := BoidVelocity.predator (Starlings.uniformVelocity s') in
  pr = Vec3 (0.5 * (clientX - Starlings.halfX s) / Starlings.halfX s)
            (-0.5 * (clientY - Starlings.halfY s) / Starlings.halfY s) 0 /\
  -0.5 <= GLSL.x pr <= 0.5 /\ -0.5 <= GLSL.y pr <= 0.5 /\
  Starlings.mouseX s' = 10000 /\ Starlings.mouseY s' = 10000.
Proof.
  intros Hx Hy Hcx Hcy s' pr.
  assert (Hs' : s' = Starlings.Sim (Starlings.sim_options s) (Starlings.birdsCount s)
            (Starlings.halfX s) (Starlings.halfY s) now 10000 10000
            (Starlings.set_predator
               (Starlings.set_time (Starlings.uniformVelocity s) now
                  (Starlings.frame_delta now
                     (Starlings.onDocumentMouseMove clientX clientY s)))
               (Vec3 (0.5 * (clientX - Starlings.halfX s) / Starlings.halfX s)
                     (-0.5 * (clientY - Starlings.halfY s) / Starlings.halfY s) 0))).
  { unfold s'. rewrite render_in_range; [reflexivity| |];
      unfold Starlings.Math_abs; simpl; apply Rabs_def1; lra. }
  unfold pr. rewrite Hs'. simpl.
  set (qx := (clientX - Starlings.halfX s) / Starlings.halfX s).
  set (qy := (clientY - Starlings.halfY s) / Starlings.halfY s).
  assert (Hqx : clientX - Starlings.halfX s = qx * Starlings.halfX s)
    by (unfold qx; field; lra).
  assert (Hqy : clientY - Starlings.halfY s = qy * Starlings.halfY s)
    by (unfold qy; field; lra).
  assert (Hbx : -1 <= qx <= 1) by (split; nra).
  assert (Hby : -1 <= qy <= 1) by (split; nra).
  replace (0.5 * (clientX - Starlings.halfX s) / Starlings.halfX s) with (0.5 * qx)
    by (unfold qx; field; lra).
  replace (-0.5 * (clientY - Starlings.halfY s) / Starlings.halfY s) with (-0.5 * qy)
    by (unfold qy; field; lra).
  repeat split; try reflexivity; lra.
Qed.

Lemma pointer_in_window_witness :
  BoidVelocity.predator (Starlings.uniformVelocity
    (Starlings.render 16 (Starlings.onDocumentMouseMove 0 0 Scenario.started)))
  = Vec3 (0.5 * (0 - 1000 / 2) / (1000 / 2)) (-0.5 * (0 - 800 / 2) / (800 / 2)) 0.
Proof.
  apply (pointer_in_window 16 0 0 Scenario.started); simpl; lra.
Defined.

(** ** The draws behind the initial textures *)

Section Draws.

Import Starlings.

(** The loop calls [Math.random()] three times for each started group of
    four cells. *)
Lemma fill_from_calls (component : R -> R) (random : nat -> R) (i k : nat)
    (data : list R) :
  (fill_from component random i k data).2 = (k + 3 * ((length data - i + 3) / 4))%nat.
Proof.
  funelim (fill_from component random i k data).
  - rewrite H. unfold store. rewrite !length_insert. clear H Heqcall.
    assert (Hdiv : ((length data - i + 3) / 4 = (length data - (i + 4) + 3) / 4 + 1)%nat).
    { destruct (le_lt_dec (i + 4) (length data)) as [Hle|Hgt].
      - replace (length data - i + 3)%nat
          with (length data - (i + 4) + 3 + 1 * 4)%nat by lia.
        rewrite Nat.div_add by lia. reflexivity.
      - replace (length data - (i + 4))%nat with 0%nat by lia.
        assert (Hcase : (length data - i = 1 \/ length data - i = 2
                         \/ length data - i = 3)%nat) by lia.
        destruct Hcase as [-> | [-> | ->]]; reflexivity. }
    lia.
  - simpl. replace (length data - i)%nat with 0%nat by lia. simpl. lia.
Qed.

Lemma createTexture_length (resolution : nat) :
  length (createTexture resolution) = (resolution * resolution * 4)%nat.
Proof. apply length_replicate. Qed.

Lemma texel_index (t a : nat) :
  (a < 4)%nat -> ((4 * t + a) mod 4 = a /\ (4 * t + a) / 4 = t)%nat.
Proof.
  intros Ha. replace (4 * t + a)%nat with (a + t * 4)%nat by lia.
  rewrite Nat.Div0.mod_add, Nat.div_add by lia.
  rewrite Nat.mod_small, Nat.div_small by lia. lia.
Qed.

(** The cell of axis [a] of texel [t] after a fill. *)
Lemma fill_from_texel (component : R -> R) (random : nat -> R) (k : nat)
    (data : list R) (t a : nat) :
  (4 * t + a < length data)%nat -> (a < 3)%nat ->
  (fill_from component random 0 k data).1 !! (4 * t + a)%nat =
    Some (Float32.fround (component (random (k + 3 * t + a)%nat))).
Proof.
  intros Hj Ha.
  destruct (texel_index t a ltac:(lia)) as [Hmod Hdiv].
  destruct (fill_from_cell component random k data (4 * t + a) Hj) as [[Hm _]|[_ H]];
    [lia|].
  rewrite H, Hmod, Hdiv. reflexivity.
Qed.

End Draws.

(** X11.  [initComputeRenderer] fills a texture of [resolution] squared
    texels with positions and one with velocities.  Axis [a] of the position
    of texel [t] comes from call [3 t + a] of [Math.random()], that of its
    velocity from call [3 resolution^2 + 3 t + a], each rounded to single
    precision by the store: no call serves two components.  The fourth cell
    of every texel is 1, and [6 resolution^2] calls are made in all. *)
Theorem texture_draws (random : nat -> R) (resolution t a : nat) :
  (t < resolution * resolution)%nat -> (a < 3)%nat ->
  let filled := Starlings.fill_textures random resolution in
  filled.1.1 !! (4 * t + a)%nat =
    Some (Float32.fround (random (3 * t + a)%nat * 100)) /\
  filled.1.2 !! (4 * t + a)%nat =
    Some (Float32.fround
            ((random (3 * (resolution * resolution) + 3 * t + a)%nat - 0.5) * 10)) /\
  filled.1.1 !! (4 * t + 3)%nat = Some 1 /\
  filled.1.2 !! (4 * t + 3)%nat = Some 1 /\
  filled.2 = (6 * (resolution * resolution))%nat.
Proof.
  intros Ht Ha filled.
  set (n := (resolution * resolution)%nat) in *.
  assert (Hlen : length (Starlings.createTexture resolution) = (n * 4)%nat)
    by apply createTexture_length.
  assert (Hcalls : forall component k,
    (Starlings.fill_from component random 0 k (Starlings.createTexture resolution)).2
    = (k + 3 * n)%nat).
  { intros component k. rewrite fill_from_calls, Hlen.
    replace (n * 4 - 0 + 3)%nat with (3 + n * 4)%nat by lia.
    rewrite Nat.div_add by lia. simpl. lia. }
  assert (Hfilled : filled =
    ((Starlings.fillPositionTexture random 0 (Starlings.createTexture resolution)).1,
     (Starlings.fillVelocityTexture random (3 * n)
        (Starlings.createTexture resolution)).1,
     (6 * n)%nat)).
  { unfold filled, Starlings.fill_textures. cbv zeta.
    pose proof (Hcalls (fun r => r * 100) 0%nat) as Hp.
    pose proof (Hcalls (fun r => (r - 0.5) * 10) (3 * n)%nat) as Hv.
    unfold Starlings.fillPositionTexture, Starlings.fillVelocityTexture in *.
    rewrite Nat.add_0_l in Hp.
    destruct (Starlings.fill_from (fun r => r * 100) random 0 0 _) as [dp kp].
    cbn [snd] in Hp. subst kp.
    destruct (Starlings.fill_from (fun r => (r - 0.5) * 10) random 0 _ _) as [dv kv].
    cbn [snd] in Hv. subst kv. cbn [fst]. f_equal. lia. }
  rewrite Hfilled. cbn [fst snd].
  unfold Starlings.fillPositionTexture, Starlings.fillVelocityTexture.
  repeat split.
  - rewrite fill_from_texel by (rewrite ?Hlen; lia). reflexivity.
  - rewrite fill_from_texel by (rewrite ?Hlen; lia). do 5 f_equal.
  - destruct (fill_from_cell (fun r => r * 100) random 0
                (Starlings.createTexture resolution) (4 * t + 3))
      as [[_ H]|[Hm _]]; [rewrite Hlen; lia|exact H|].
    destruct (texel_index t 3 ltac:(lia)) as [Hmod _]. lia.
  - destruct (fill_from_cell (fun r => (r - 0.5) * 10) random (3 * n)
                (Starlings.createTexture resolution) (4 * t + 3))
      as [[_ H]|[Hm _]]; [rewrite Hlen; lia|exact H|].
    destruct (texel_index t 3 ltac:(lia)) as [Hmod _]. lia.
Qed.

Lemma texture_draws_witness :
  (Starlings.fill_textures (fun n => INR n / 100) 2).1.2 !! (4 * 1 + 2)%nat
  = Some (Float32.fround
            (((fun n => INR n / 100) (3 * (2 * 2) + 3 * 1 + 2)%nat - 0.5) * 10)).
Proof.
  apply (texture_draws (fun n => INR n / 100) 2 1 2); lia.
Defined.

(** X12.  Every initial velocity is shorter than the speed limit of the
    shader, so the clamp lets it through: its components lie in [[-5, 5]],
    its squared length is at most 75. *)
Theorem initial_speed_below_limit (random : nat -> R) (k : nat) (data : list R)
    (t : nat) (v : vec3) :
  (forall n, 0 <= random n < 1) ->
  Starlings.texel_xyz (Starlings.fillVelocityTexture random k data).1 t = Some v ->
  GLSL.dot v v <= 75 /\
  GLSL.length v < BoidVelocity.SPEED_LIMIT /\
  BoidVelocity.clamp v BoidVelocity.SPEED_LIMIT = Some v.
Proof.
  intros Hrandom Hv. unfold Starlings.texel_xyz in Hv.
  unfold Starlings.fillVelocityTexture in Hv.
  set (filled := (Starlings.fill_from (fun r => (r - 0.5) * 10) random 0 k data).1) in *.
  assert (Hcell : forall a c, (a < 3)%nat -> filled !! (4 * t + a)%nat = Some c ->
                              -5 <= c <= 5).
  { intros a c Ha Hc.
    assert (Hj : (4 * t + a < length data)%nat).
    { apply lookup_lt_Some in Hc. unfold filled in Hc.
      rewrite fill_from_length in Hc. exact Hc. }
    unfold filled in Hc. rewrite fill_from_texel in Hc by assumption.
    apply (inj Some) in Hc. subst c.
    pose proof (Hrandom (k + 3 * t + a)%nat).
    apply (fround_range _ (-5) 5); [apply Rabs_def1|]; lra. }
  destruct (filled !! (4 * t)%nat) as [x|] eqn:Hx; [|discriminate].
  destruct (filled !! (4 * t + 1)%nat) as [y|] eqn:Hy; [|discriminate].
  destruct (filled !! (4 * t + 2)%nat) as [z|] eqn:Hz; [|discriminate].
  cbn [mbind option_bind] in Hv. apply (inj Some) in Hv. subst v.
  replace (4 * t)%nat with (4 * t + 0)%nat in Hx by lia.
  pose proof (Hcell 0%nat x ltac:(lia) Hx) as Hbx.
  pose proof (Hcell 1%nat y ltac:(lia) Hy) as Hby.
  pose proof (Hcell 2%nat z ltac:(lia) Hz) as Hbz.
  assert (Hdot : GLSL.dot (Vec3 x y z) (Vec3 x y z) <= 75)
    by (unfold GLSL.dot; simpl; nra).
  assert (Hlen : GLSL.length (Vec3 x y z) < BoidVelocity.SPEED_LIMIT).
  { unfold BoidVelocity.SPEED_LIMIT.
    pose proof (length_nonneg (Vec3 x y z)) as H0.
    pose proof (length_sqr (Vec3 x y z)) as Hsq. nra. }
  split; [exact Hdot|]. split; [exact Hlen|].
  apply clamp_below. lra.
Qed.

Lemma initial_speed_below_limit_witness :
  exists v,
    Starlings.texel_xyz (Starlings.fillVelocityTexture (fun _ => 0.5) 0 [0; 0; 0; 0]).1 0
      = Some v /\
    GLSL.length v < BoidVelocity.SPEED_LIMIT.
Proof.
  assert (Hdef : is_Some (Starlings.texel_xyz
            (Starlings.fillVelocityTexture (fun _ => 0.5) 0 [0; 0; 0; 0]).1 0)).
  { unfold Starlings.texel_xyz, Starlings.fillVelocityTexture.
    rewrite (fill_from_texel _ _ 0 [0; 0; 0; 0] 0 0) by (simpl; lia).
    cbn [mbind option_bind].
    rewrite (fill_from_texel _ _ 0 [0; 0; 0; 0] 0 1) by (simpl; lia).
    cbn [mbind option_bind].
    rewrite (fill_from_texel _ _ 0 [0; 0; 0; 0] 0 2) by (simpl; lia).
    cbn [mbind option_bind]. eauto. }
  destruct Hdef as [v Hv]. exists v. split; [exact Hv|].
  apply (initial_speed_below_limit (fun _ => 0.5) 0 [0; 0; 0; 0] 0 v);
    [intros _; lra|exact Hv].
Defined.

(** ** The geometry of the birds *)

Section Geometry.

Import BirdGeometry.

(** [vertex_append] overwrites as many cells as it has arguments, from the
    counter on, and advances the counter past them. *)
Lemma vertex_append_spec (args pre old post : list Q) :
  length old = length args ->
  vertex_append args (pre ++ old ++ post, length pre) =
    (pre ++ args ++ post, (length pre + length args)%nat).
Proof.
  revert pre old. induction args as [|a args IH]; intros pre old Hlen.
  - destruct old; [|discriminate]. simpl. f_equal. lia.
  - destruct old as [|o old]; [discriminate|]. injection Hlen as Hlen.
    unfold vertex_append in *. simpl fold_left. cbn [fst snd].
    replace (<[length pre:=a]> (pre ++ (o :: old) ++ post))
      with ((pre ++ [a]) ++ old ++ post).
    + replace (S (length pre)) with (length (pre ++ [a]))
        by (rewrite length_app; simpl; lia).
      rewrite (IH (pre ++ [a]) old Hlen).
      rewrite <- !app_assoc. simpl. f_equal.
      rewrite length_app. simpl. lia.
    + rewrite <- app_assoc. simpl.
      rewrite insert_app_r_alt by lia. rewrite Nat.sub_diag. reflexivity.
Qed.

Lemma add_bird_spec (pre old post : list Q) :
  length old = 27%nat ->
  add_bird (pre ++ old ++ post, length pre) =
    (pre ++ pattern ++ post, (length pre + 27)%nat).
Proof.
  intros Hlen. unfold add_bird, pattern.
  rewrite <- (take_drop 9 old), <- (take_drop 9 (drop 9 old)).
  set (o1 := take 9 old). set (o2 := take 9 (drop 9 old)).
  set (o3 := drop 9 (drop 9 old)).
  assert (H1 : length o1 = 9%nat) by (unfold o1; rewrite length_take; lia).
  assert (H2 : length o2 = 9%nat)
    by (unfold o2; rewrite length_take, length_drop; lia).
  assert (H3 : length o3 = 9%nat) by (unfold o3; rewrite !length_drop; lia).
  rewrite <- !app_assoc.
  rewrite (vertex_append_spec body pre o1 (o2 ++ o3 ++ post)) by exact H1.
  replace (pre ++ body ++ o2 ++ o3 ++ post)
    with ((pre ++ body) ++ o2 ++ o3 ++ post) by (rewrite <- app_assoc; reflexivity).
  replace (length pre + length body)%nat with (length (pre ++ body))
    by (rewrite length_app; reflexivity).
  rewrite (vertex_append_spec left_wing (pre ++ body) o2 (o3 ++ post)) by exact H2.
  replace ((pre ++ body) ++ left_wing ++ o3 ++ post)
    with (((pre ++ body) ++ left_wing) ++ o3 ++ post)
    by (rewrite <- !app_assoc; reflexivity).
  replace (length (pre ++ body) + length left_wing)%nat
    with (length ((pre ++ body) ++ left_wing))
    by (rewrite !length_app; reflexivity).
  rewrite (vertex_append_spec right_wing ((pre ++ body) ++ left_wing) o3 post)
    by exact H3.
  rewrite !length_app, <- !app_assoc. simpl. f_equal. lia.
Qed.

Lemma copies_end (n : nat) :
  concat (replicate n pattern) ++ pattern = pattern ++ concat (replicate n pattern).
Proof.
  induction n as [|n IH]; [reflexivity|].
  change (replicate (S n) pattern) with (pattern :: replicate n pattern).
  rewrite concat_cons, <- app_assoc, IH. reflexivity.
Qed.

Lemma copies_length (n : nat) : length (concat (replicate n pattern)) = (27 * n)%nat.
Proof.
  induction n as [|n IH]; [reflexivity|].
  change (replicate (S n) pattern) with (pattern :: replicate n pattern).
  rewrite concat_cons, length_app, IH. simpl length. lia.
Qed.

Lemma fill_vertices_spec (birds : nat) (vertices : list Q) :
  (27 * birds <= length vertices)%nat ->
  fill_vertices birds vertices =
    (concat (replicate birds pattern) ++ drop (27 * birds) vertices, (27 * birds)%nat).
Proof.
  unfold fill_vertices. induction birds as [|n IH]; intros Hlen.
  - simpl. rewrite drop_0. reflexivity.
  - rewrite Nat.iter_succ, IH by lia.
    rewrite <- (take_drop 27 (drop (27 * n) vertices)).
    rewrite drop_drop.
    replace (27 * n)%nat with (length (concat (replicate n pattern))) at 3
      by apply copies_length.
    rewrite add_bird_spec by (rewrite length_take, length_drop; lia).
    rewrite copies_length.
    change (replicate (S n) pattern) with (pattern :: replicate n pattern).
    rewrite concat_cons, app_assoc, copies_end.
    replace (27 * S n)%nat with (27 * n + 27)%nat by lia.
    rewrite <- !app_assoc. reflexivity.
Qed.

Lemma fill_attributes_S (res n : nat) (a : attributes) :
  fill_attributes res (S n) a = assign res n (fill_attributes res n a).
Proof.
  unfold fill_attributes. rewrite seq_S, fold_left_app. reflexivity.
Qed.

(** After [n] rounds the first [n] vertices have their reference and their
    number within the bird; the arrays keep their lengths and the colours
    stay black. *)
Lemma fill_attributes_spec (res n m : nat) (a : attributes) :
  (n * 2 <= length (references a))%nat -> (n <= length (birdVertex a))%nat ->
  birdColors a = replicate m 0%Q ->
  let a' := fill_attributes res n a in
  length (references a') = length (references a) /\
  length (birdVertex a') = length (birdVertex a) /\
  birdColors a' = replicate m 0%Q /\
  forall i, (i < n)%nat ->
    references a' !! (i * 2)%nat =
      Some (of_nat ((i / 3) mod res) / of_nat res)%Q /\
    references a' !! (i * 2 + 1)%nat =
      Some (of_nat ((i / 3) / res) / of_nat res)%Q /\
    birdVertex a' !! i = Some (of_nat (i mod 9)).
Proof.
  intros Hr Hb Hc. induction n as [|n IH].
  - simpl. split; [reflexivity|]. split; [reflexivity|]. split; [exact Hc|].
    intros i Hi. lia.
  - cbv zeta. rewrite fill_attributes_S.
    destruct IH as (Hlr & Hlb & Hcol & Hcells); [lia|lia|].
    set (a0 := fill_attributes res n a) in *.
    unfold assign. cbv zeta. cbn [references birdVertex birdColors].
    rewrite !length_insert, Hcol, !insert_replicate.
    split; [exact Hlr|]. split; [exact Hlb|]. split; [reflexivity|].
    intros i Hi. split; [|split].
    + destruct (decide (i = n)) as [->|Hne].
      * rewrite list_lookup_insert_ne by lia.
        rewrite list_lookup_insert_eq by lia. reflexivity.
      * rewrite !list_lookup_insert_ne by lia. apply Hcells. lia.
    + destruct (decide (i = n)) as [->|Hne].
      * rewrite list_lookup_insert_eq by (rewrite length_insert; lia). reflexivity.
      * rewrite !list_lookup_insert_ne by lia. apply Hcells. lia.
    + destruct (decide (i = n)) as [->|Hne].
      * rewrite list_lookup_insert_eq by lia. reflexivity.
      * rewrite list_lookup_insert_ne by lia. apply Hcells. lia.
Qed.

Lemma res_of_pos (resolution : nat) : (0 < res_of resolution)%nat.
Proof.
  unfold res_of. destruct (Nat.eqb_spec resolution 0); lia.
Qed.

End Geometry.

(** X13.  Vertex [k] of bird [f] carries its number [k] within the bird and
    the reference [(column / res, row / res)] of the texel with index
    [3 f + k / 3], counted along the rows of a texture [res] wide: the
    reference is computed from the number of the triangle, so the three
    triangles of one bird refer to three texels in a row, and the row
    lies within the texture only while [3 f + k / 3 < res * res]. *)
Theorem bird_references (birdsCount resolution f k : nat) :
  (f < birdsCount)%nat -> (k < 9)%nat ->
  let geo := BirdGeometry.constructor birdsCount resolution in
  let res := BirdGeometry.res_of resolution in
  let i := (9 * f + k)%nat in
  let idx := (3 * f + k / 3)%nat in
  BirdGeometry.reference geo !! (i * 2)%nat =
    Some (BirdGeometry.of_nat (idx mod res) / BirdGeometry.of_nat res)%Q /\
  BirdGeometry.reference geo !! (i * 2 + 1)%nat =
    Some (BirdGeometry.of_nat (idx / res) / BirdGeometry.of_nat res)%Q /\
  BirdGeometry.birdVertex_attribute geo !! i = Some (BirdGeometry.of_nat k) /\
  (idx mod res < res)%nat /\
  (idx / res < res <-> idx < res * res)%nat.
Proof.
  intros Hf Hk geo res i idx.
  assert (Hres : (0 < res)%nat) by apply res_of_pos.
  assert (Hidx : (i / 3 = idx)%nat).
  { unfold i, idx. replace (9 * f + k)%nat with (k + 3 * f * 3)%nat by lia.
    rewrite Nat.div_add by lia. lia. }
  assert (Hmod : (i mod 9 = k)%nat).
  { unfold i. replace (9 * f + k)%nat with (k + f * 9)%nat by lia.
    rewrite Nat.Div0.mod_add. apply Nat.mod_small, Hk. }
  unfold geo, BirdGeometry.constructor. cbv zeta.
  cbn [BirdGeometry.reference BirdGeometry.birdVertex_attribute].
  destruct (fill_attributes_spec res (birdsCount * 3 * 3) (birdsCount * 3 * 3 * 3)
              (BirdGeometry.Attributes (replicate (birdsCount * 3 * 3 * 3) 0%Q)
                 (replicate (birdsCount * 3 * 3 * 2) 0%Q)
                 (replicate (birdsCount * 3 * 3) 0%Q)))
    as (_ & _ & _ & Hcells);
    [| | |destruct (Hcells i ltac:(unfold i; lia)) as (Hx & Hy & Hv)].
  - cbn [BirdGeometry.references]. rewrite length_replicate. lia.
  - cbn [BirdGeometry.birdVertex]. rewrite length_replicate. lia.
  - reflexivity.
  - rewrite Hidx in Hx, Hy. rewrite Hmod in Hv.
    split; [exact Hx|]. split; [exact Hy|]. split; [exact Hv|].
    split; [apply Nat.mod_upper_bound; lia|].
    split.
    + intros Hrow. pose proof (Nat.div_mod_eq idx res) as Hdm.
      pose proof (Nat.mod_upper_bound idx res ltac:(lia)). nia.
    + intros Hin. apply Nat.Div0.div_lt_upper_bound. exact Hin.
Qed.

Lemma bird_references_witness :
  (((3 * 1 + 4 / 3) / BirdGeometry.res_of 2 < BirdGeometry.res_of 2)%nat <->
   (3 * 1 + 4 / 3 < BirdGeometry.res_of 2 * BirdGeometry.res_of 2)%nat).
Proof.
  apply (bird_references 2 2 1 4); lia.
Defined.

(** X14.  The geometry of [birds] birds: the positions are [birds] copies of
    the same 27 coordinates, body, left wing, right wing, each times 0.35;
    all vertex colours are black; the four attributes hold 27, 27, 18 and 9
    numbers for each bird. *)
Theorem bird_shape (birdsCount resolution : nat) :
  let geo := BirdGeometry.constructor birdsCount resolution in
  BirdGeometry.position geo =
    BirdGeometry.scale 0.35 (concat (replicate birdsCount BirdGeometry.pattern)) /\
  length (BirdGeometry.position geo) = (27 * birdsCount)%nat /\
  BirdGeometry.birdColor geo = replicate (27 * birdsCount) 0%Q /\
  length (BirdGeometry.reference geo) = (18 * birdsCount)%nat /\
  length (BirdGeometry.birdVertex_attribute geo) = (9 * birdsCount)%nat.
Proof.
  intros geo. unfold geo, BirdGeometry.constructor. cbv zeta.
  cbn [BirdGeometry.position BirdGeometry.birdColor BirdGeometry.reference
       BirdGeometry.birdVertex_attribute].
  assert (Hpos : (BirdGeometry.fill_vertices birdsCount
                    (replicate (birdsCount * 3 * 3 * 3) 0%Q)).1
                 = concat (replicate birdsCount BirdGeometry.pattern)).
  { rewrite fill_vertices_spec by (rewrite length_replicate; lia).
    cbn [fst]. rewrite drop_ge by (rewrite length_replicate; lia).
    apply app_nil_r. }
  rewrite Hpos.
  destruct (fill_attributes_spec (BirdGeometry.res_of resolution)
              (birdsCount * 3 * 3) (birdsCount * 3 * 3 * 3)
              (BirdGeometry.Attributes (replicate (birdsCount * 3 * 3 * 3) 0%Q)
                 (replicate (birdsCount * 3 * 3 * 2) 0%Q)
                 (replicate (birdsCount * 3 * 3) 0%Q)))
    as (Hlr & Hlb & Hcol & _);
    [| | |rewrite Hlr, Hlb, Hcol].
  - cbn [BirdGeometry.references]. rewrite length_replicate. lia.
  - cbn [BirdGeometry.birdVertex]. rewrite length_replicate. lia.
  - reflexivity.
  - cbn [BirdGeometry.references BirdGeometry.birdVertex].
    unfold BirdGeometry.scale.
    rewrite length_map, copies_length, !length_replicate.
    repeat split; try lia. f_equal. lia.
Qed.

(** ** Listeners *)

Section ListenerFacts.

Import Listeners.

(** Removing a function that [bind] has just made removes nothing. *)
Lemma removeEventListener_fresh (ty : event_type) (f : fn) (n : nat)
    (ls : list listener) :
  Forall (fun l => (fn_bind (l_fn l) < n)%nat) ls -> (n <= fn_bind f)%nat ->
  removeEventListener ty f ls = ls.
Proof.
  intros Hls Hf. unfold removeEventListener.
  induction Hls as [|l ls Hl _ IH]; [reflexivity|].
  rewrite filter_cons_True; [rewrite IH; reflexivity|].
  intros ->. simpl in Hl. lia.
Qed.

Lemma addEventListener_fresh (ty : event_type) (f : fn) (n : nat)
    (ls : list listener) :
  Forall (fun l => (fn_bind (l_fn l) < n)%nat) ls -> (n <= fn_bind f)%nat ->
  addEventListener ty f ls = ls ++ [Listener ty f].
Proof.
  intros Hls Hf. unfold addEventListener.
  destruct (decide (Listener ty f ∈ ls)) as [Hin|_]; [|reflexivity].
  exfalso. rewrite Forall_forall in Hls. apply Hls in Hin. simpl in Hin. lia.
Qed.

Lemma initScene_spec (d : dom) :
  bound_before d ->
  wrapper (initScene d) =
    Some [Listener Mousemove (Fn OnDocumentMouseMove (binds d));
          Listener Touchstart (Fn OnDocumentTouchStart (binds d + 1));
          Listener Touchmove (Fn OnDocumentTouchMove (binds d + 2))] /\
  window (initScene d) =
    window d ++ [Listener Resize (Fn OnWindowResize (binds d + 3))] /\
  binds (initScene d) = (binds d + 4)%nat.
Proof.
  intros Hd. unfold bound_before in Hd. apply Forall_app in Hd as [_ Hwin].
  unfold initScene. cbv zeta. cbn [wrapper window binds].
  split; [|split; [|reflexivity]].
  - reflexivity.
  - apply (addEventListener_fresh _ _ (binds d)); [exact Hwin|simpl; lia].
Qed.

End ListenerFacts.

(** X15.  [stop] binds each handler anew before it hands it to
    [removeEventListener], so it removes nothing: after [initScene] and
    [stop] the wrapper still has its three listeners and [window] still has
    the resize listener; only the frame request is given up. *)
Theorem stop_keeps_listeners (d : Listeners.dom) :
  Listeners.bound_before d ->
  let started := Listeners.initScene d in
  let n := Listeners.binds d in
  Listeners.wrapper (Listeners.stop started) = Listeners.wrapper started /\
  Listeners.wrapper (Listeners.stop started) =
    Some [Listeners.Listener Listeners.Mousemove
            (Listeners.Fn Listeners.OnDocumentMouseMove n);
          Listeners.Listener Listeners.Touchstart
            (Listeners.Fn Listeners.OnDocumentTouchStart (n + 1));
          Listeners.Listener Listeners.Touchmove
            (Listeners.Fn Listeners.OnDocumentTouchMove (n + 2))] /\
  Listeners.window (Listeners.stop started) =
    Listeners.window d ++
    [Listeners.Listener Listeners.Resize (Listeners.Fn Listeners.OnWindowResize (n + 3))] /\
  (forall id, Listeners.rafId (Listeners.stop (Listeners.animate id started)) = None).
Proof.
  intros Hd started n.
  destruct (initScene_spec d Hd) as (Hw & Hwin & Hb).
  fold started in Hw, Hwin, Hb. fold n in Hw, Hwin, Hb.
  assert (Hold : Forall (fun l => (Listeners.fn_bind (Listeners.l_fn l) < n + 4)%nat)
                   (Listeners.window d)).
  { unfold Listeners.bound_before in Hd. apply Forall_app in Hd as [_ Hd].
    eapply Forall_impl; [exact Hd|]. intros l Hl. simpl in Hl. fold n in Hl. lia. }
  assert (Hstop_w : Listeners.wrapper (Listeners.stop started)
                    = Listeners.wrapper started).
  { unfold Listeners.stop. cbv zeta. rewrite Hw, Hb. cbn [Listeners.wrapper].
    f_equal.
    set (ls := [_; _; _]).
    assert (Hls : Forall (fun l => (Listeners.fn_bind (Listeners.l_fn l) < n + 4)%nat) ls)
      by (unfold ls; repeat constructor; simpl; lia).
    do 3 (rewrite (removeEventListener_fresh _ _ (n + 4) ls)
            by (exact Hls || (simpl; lia))).
    reflexivity. }
  split; [exact Hstop_w|]. split; [rewrite Hstop_w; exact Hw|]. split.
  - unfold Listeners.stop. cbv zeta. rewrite Hw, Hb, Hwin. cbn [Listeners.window].
    apply (removeEventListener_fresh _ _ (n + 4)); [|simpl; lia].
    apply Forall_app. split; [exact Hold|].
    constructor; [simpl; lia|constructor].
  - intros id. unfold Listeners.stop, Listeners.animate. cbv zeta.
    cbn [Listeners.wrapper]. rewrite Hw. reflexivity.
Qed.

Lemma stop_keeps_listeners_witness :
  Listeners.window (Listeners.stop (Listeners.initScene (Listeners.Dom None [] 0 None)))
  = [] ++ [Listeners.Listener Listeners.Resize
             (Listeners.Fn Listeners.OnWindowResize (0 + 3))].
Proof.
  apply (stop_keeps_listeners (Listeners.Dom None [] 0 None)).
  unfold Listeners.bound_before. simpl. constructor.
Defined.

(** X16.  Outside the separation zone a texel changes the velocity by
    little.  For a texel at or beyond the separation threshold whose
    velocity is not zero if it lies before the alignment threshold, the
    contribution has a value and changes the velocity by at most [1.5 * dt]
    in length, and by at most [0.5 * dt] from the alignment threshold
    on. *)
Theorem gentle_outside_separation (u : BoidVelocity.uniforms) (p v : vec3)
    (b : BoidVelocity.bird) :
  0 <= BoidVelocity.separation_distance u ->
  0 <= BoidVelocity.alignment_distance u ->
  0 < BoidVelocity.cohesion_distance u ->
  0 <= BoidVelocity.del_change u ->
  let d := GLSL.length (BoidVelocity.position b - p) in
  let Z := BoidVelocity.zoneRadius u in
  let percent := d * d / (Z * Z) in
  let sepT := BoidVelocity.separation_distance u / Z in
  let alignT :=
    (BoidVelocity.separation_distance u + BoidVelocity.alignment_distance u) / Z in
  sepT <= percent ->
  (percent < alignT -> BoidVelocity.velocity b <> Vec3 0 0 0) ->
  exists w,
    BoidVelocity.neighbor u p v b = Some w /\
    GLSL.length (w - v) <= 1.5 * BoidVelocity.del_change u /\
    (alignT <= percent -> GLSL.length (w - v) <= 0.5 * BoidVelocity.del_change u).
Proof.
  intros Hs Ha Hc Hdt d Z percent sepT alignT Hge Hvel.
  assert (Hzero : GLSL.length (v - v) = 0).
  { replace (v - v)%vec with (Vec3 0 0 0) by (apply vec3_eq; simpl; lra).
    apply length_x_pos. lra. }
  destruct (Rlt_dec d 0.0001) as [Hd|Hd].
  { exists v. rewrite neighbor_skip by (left; exact Hd). rewrite Hzero.
    repeat split; intros; lra. }
  destruct (Rgt_dec (d * d) (Z * Z)) as [Hz|Hz].
  { exists v. rewrite neighbor_skip by (right; exact Hz). rewrite Hzero.
    repeat split; intros; lra. }
  destruct (zone_facts u d Hs Ha Hc Hd Hz) as (_ & [Hp0 _] & [_ Hst] & Ha1).
  change (BoidVelocity.zoneRadius u) with Z in Hst, Ha1.
  change (BoidVelocity.zoneRadiusSquared u) with (Z * Z) in Hp0.
  fold percent in Hp0. fold sepT alignT in Hst. fold alignT in Ha1.
  assert (Hdir : GLSL.length (BoidVelocity.position b - p) <> 0) by (fold d; lra).
  destruct (zone_rules_defined u (BoidVelocity.position b - p)
              (BoidVelocity.velocity b) v percent sepT alignT Hdir Hp0 Ha1)
    as (_ & Halign & _).
  rewrite (neighbor_in_zone u p v b Hd Hz). cbv zeta.
  change (BoidVelocity.zoneRadius u) with Z.
  change (BoidVelocity.zoneRadiusSquared u) with (Z * Z).
  fold d percent sepT alignT.
  destruct (Rlt_dec percent sepT) as [Hlt|_]; [lra|].
  destruct (Rlt_dec percent alignT) as [Hlt|Hge'].
  - rewrite Halign by assumption.
    assert (Hn : GLSL.length (BoidVelocity.velocity b) <> 0)
      by (rewrite length_zero_iff; exact (Hvel Hlt)).
    pose proof (normalize_Some _ Hn) as Hnorm. rewrite Hnorm.
    cbn [mbind option_bind]. eexists. split; [reflexivity|].
    destruct (push_along _ _ v
                (BoidVelocity.alignment_weight u ((percent - sepT) / (alignT - sepT)))
                Hnorm) as [Hlen _].
    rewrite Hlen.
    pose proof (alignment_weight_range u ((percent - sepT) / (alignT - sepT)) Hdt)
      as [Hlo Hhi].
    rewrite Rabs_pos_eq by lra. split; [lra|]. intros Hc'. lra.
  - unfold BoidVelocity.cohesion_rule. cbv zeta.
    rewrite fdiv_Some by lra. cbn [mbind option_bind].
    pose proof (normalize_Some _ Hdir) as Hnorm. rewrite Hnorm.
    cbn [mbind option_bind]. eexists. split; [reflexivity|].
    set (t := (percent - alignT) / (1.0 - alignT)).
    destruct (push_along _ _ v (BoidVelocity.cohesion_weight u t) Hnorm) as [Hlen _].
    rewrite Hlen.
    assert (Hw : Rabs (BoidVelocity.cohesion_weight u t)
                 <= 0.5 * BoidVelocity.del_change u).
    { unfold BoidVelocity.cohesion_weight.
      pose proof (COS_bound (t * BoidVelocity.PI_2)) as [Hlo Hhi].
      apply Rabs_le. split; nra. }
    split; [lra|]. intros _. exact Hw.
Qed.

Lemma gentle_outside_separation_witness :
  exists w,
    BoidVelocity.neighbor (Scenario.uniforms Scenario.far) (Vec3 0 0 0) (Vec3 0 0 0)
      (Flock.flying 40 0 0) = Some w /\
    GLSL.length (w - Vec3 0 0 0) <= 1.5 * 0.016.
Proof.
  assert (Hlen : GLSL.length (BoidVelocity.position (Flock.flying 40 0 0) - Vec3 0 0 0)
                 = 40).
  { replace (BoidVelocity.position (Flock.flying 40 0 0) - Vec3 0 0 0)%vec
      with (Vec3 40 0 0) by (apply vec3_eq; simpl; lra).
    apply length_x_pos. lra. }
  destruct (scenario_zone Scenario.far) as [HZ HZ2].
  destruct (gentle_outside_separation (Scenario.uniforms Scenario.far) (Vec3 0 0 0)
              (Vec3 0 0 0) (Flock.flying 40 0 0)) as (w & Hw & Hb & _);
    try (simpl; lra).
  - rewrite Hlen, HZ. simpl. lra.
  - intros _. simpl. intros [= H]. lra.
  - exists w. split; [exact Hw|exact Hb].
Defined.
